(** * Metronome: lookahead scheduler, tap estimator and practice engine

    A shallow embedding of the metronome script (class [Metronome] and the
    practice / tap handlers wired to it) together with the properties the
    design document states about them.

    JavaScript numbers are modelled by [number]: a rational, one of the two
    infinities, or NaN.  Division by zero, NaN propagation and the
    comparisons with NaN follow the language; the sign of zero is not
    modelled.  The operations of [JS] compute on the rationals exactly;
    those of [Binary64] round their result to binary64.  The scheduler is
    read both ways: first with exact operations, for the properties that do
    not depend on the rounding, then in [Scheduler64] with every operation
    rounded, for the properties stated about the timestamps themselves.
    The tap estimate rounds its two divisions. *)

From Stdlib Require Import String Ascii Decimal DecimalString DecimalZ.
From Stdlib Require Import ZArith QArith Qround Qminmax Qabs Qpower.
From Stdlib Require Import Lia Lqa List Bool Sorted.
Import ListNotations.

Open Scope Q_scope.

(* ------------------------------------------------------------------ *)
(** ** JavaScript numbers *)

Module JS.

Inductive number : Type :=
| NaN
| NegInf
| Fin (q : Q)
| PosInf.

Definition Qltb (a b : Q) : bool := negb (Qle_bool b a).

Definition of_Z (z : Z) : number := Fin (inject_Z z).

(** Unary minus. *)
Definition neg (a : number) : number :=
  match a with
  | NaN => NaN
  | NegInf => PosInf
  | Fin q => Fin (- q)
  | PosInf => NegInf
  end.

(** [a + b]. *)
Definition add (a b : number) : number :=
  match a, b with
  | NaN, _ | _, NaN => NaN
  | PosInf, NegInf | NegInf, PosInf => NaN
  | PosInf, _ | _, PosInf => PosInf
  | NegInf, _ | _, NegInf => NegInf
  | Fin x, Fin y => Fin (x + y)
  end.

(** [a - b]. *)
Definition sub (a b : number) : number := add a (neg b).

(** The infinity carrying the sign of [pos]. *)
Definition inf (pos : bool) : number := if pos then PosInf else NegInf.

(** [a * b]; infinity times zero is NaN. *)
Definition mul (a b : number) : number :=
  match a, b with
  | NaN, _ | _, NaN => NaN
  | Fin x, Fin y => Fin (x * y)
  | PosInf, PosInf | NegInf, NegInf => PosInf
  | PosInf, NegInf | NegInf, PosInf => NegInf
  | PosInf, Fin y | Fin y, PosInf =>
      if Qeq_bool y 0 then NaN else inf (Qltb 0 y)
  | NegInf, Fin y | Fin y, NegInf =>
      if Qeq_bool y 0 then NaN else inf (Qltb y 0)
  end.

(** [a / b]; a finite non-zero number over zero is an infinity, zero over
    zero and infinity over infinity are NaN. *)
Definition div (a b : number) : number :=
  match a, b with
  | NaN, _ | _, NaN => NaN
  | Fin x, Fin y =>
      if Qeq_bool y 0
      then (if Qeq_bool x 0 then NaN else inf (Qltb 0 x))
      else Fin (x / y)
  | Fin _, PosInf | Fin _, NegInf => Fin 0
  | PosInf, Fin y => inf (Qle_bool 0 y)
  | NegInf, Fin y => inf (Qltb y 0)
  | _, _ => NaN
  end.

(** [a < b]; false as soon as one side is NaN. *)
Definition lt (a b : number) : bool :=
  match a, b with
  | NaN, _ | _, NaN => false
  | _, NegInf => false
  | NegInf, _ => true
  | PosInf, _ => false
  | _, PosInf => true
  | Fin x, Fin y => Qltb x y
  end.

(** [a <= b]. *)
Definition le (a b : number) : bool :=
  match a, b with
  | NaN, _ | _, NaN => false
  | NegInf, _ => true
  | _, PosInf => true
  | _, NegInf => false
  | PosInf, _ => false
  | Fin x, Fin y => Qle_bool x y
  end.

(** [a > b] and [a >= b]. *)
Definition gt (a b : number) : bool := lt b a.
Definition ge (a b : number) : bool := le b a.

(** [Math.max(a, b)] and [Math.min(a, b)]: NaN if an argument is NaN. *)
Definition max (a b : number) : number :=
  match a, b with
  | NaN, _ | _, NaN => NaN
  | _, _ => if lt a b then b else a
  end.

Definition min (a b : number) : number :=
  match a, b with
  | NaN, _ | _, NaN => NaN
  | _, _ => if lt b a then b else a
  end.

(** [Math.floor(a)]. *)
Definition floor (a : number) : number :=
  match a with
  | Fin q => of_Z (Qfloor q)
  | _ => a
  end.

(** [Math.round(a)]: the nearest integer, ties towards +infinity. *)
Definition round (a : number) : number :=
  match a with
  | Fin q => of_Z (Qfloor (q + (1 # 2)))
  | _ => a
  end.

(** Truthiness of a number: NaN and zero are falsy. *)
Definition truthy (a : number) : bool :=
  match a with
  | NaN => false
  | Fin q => negb (Qeq_bool q 0)
  | _ => true
  end.

(** [a || b] on numbers. *)
Definition or (a b : number) : number := if truthy a then a else b.

(** Equality of numbers up to the representation of the rational. *)
Definition same (a b : number) : Prop :=
  match a, b with
  | NaN, NaN | NegInf, NegInf | PosInf, PosInf => True
  | Fin x, Fin y => x == y
  | _, _ => False
  end.

(** [lo <= a <= hi] as a proposition on numbers. *)
Definition within (lo hi : Q) (a : number) : Prop :=
  exists q, a = Fin q /\ lo <= q <= hi.

End JS.

Import JS.

Notation "a =n= b" := (JS.same a b) (at level 70, no associativity).

(* ------------------------------------------------------------------ *)
(** ** Binary64 arithmetic

    The timestamps of the scheduler and the tap estimate are results of
    floating-point operations.  [fl64] rounds a rational to the nearest
    binary64 number, ties to even, with gradual underflow, and with overflow
    to an infinity; [add], [mul] and [div] are [+], [*] and [/] on finite
    numbers: the exact result, rounded. *)

Module Binary64.

(** The exponent [e] with [2^(e-1) <= |q| < 2^e], for [q] other than 0. *)
Definition mag (q : Q) : Z :=
  let e := (Z.log2 (Z.abs (Qnum q)) - Z.log2 (Zpos (Qden q)))%Z in
  if Qle_bool (2 ^ e) (Qabs q) then (e + 1)%Z else e.

(** The nearest integer, ties to the even one. *)
Definition nearestEven (x : Q) : Z :=
  let f := Qfloor x in
  match Qcompare (x - inject_Z f) (1 # 2) with
  | Lt => f
  | Gt => (f + 1)%Z
  | Eq => if Z.even f then f else (f + 1)%Z
  end.

(** The exponent of the last bit of the 53-bit significand of [q]; it
    stops at -1074, the exponent of the smallest subnormal number. *)
Definition quantum (q : Q) : Z := Z.max (mag q - 53) (-1074).

(** The multiple of [2 ^ quantum q] nearest to [q]. *)
Definition nearest (q : Q) : Q :=
  inject_Z (nearestEven (q / 2 ^ quantum q)) * 2 ^ quantum q.

(** Rounding to binary64.  A result of magnitude [2^1024] or more is an
    infinity.  The rational is kept in lowest terms. *)
Definition fl64 (q : Q) : number :=
  if Qeq_bool q 0 then Fin 0
  else if Qle_bool (2 ^ 1024) (Qabs (nearest q)) then inf (Qltb 0 q)
  else Fin (Qred (nearest q)).

(** The unit roundoff, [2^-53]. *)
Definition eps : Q := 1 # 9007199254740992.

(** [a + b], [a * b] and [a / b]. *)
Definition add (a b : number) : number :=
  match a, b with
  | Fin x, Fin y => fl64 (x + y)
  | _, _ => JS.add a b
  end.

Definition mul (a b : number) : number :=
  match a, b with
  | Fin x, Fin y => fl64 (x * y)
  | _, _ => JS.mul a b
  end.

Definition div (a b : number) : number :=
  match a, b with
  | Fin x, Fin y => if Qeq_bool y 0 then JS.div a b else fl64 (x / y)
  | _, _ => JS.div a b
  end.

End Binary64.

(* ------------------------------------------------------------------ *)
(** ** The scheduler: class [Metronome] *)

(** One call [_playClick(time, { main })]: the oscillator started at [time],
    at 800 Hz for a main beat and 600 Hz for a subdivision tick.  The clicks
    handed to the audio context are the scheduler's output. *)
Record click : Type := Click { time : number; main : bool }.

(** The fields of a [Metronome] the scheduler reads and writes.  [nextTime]
    is undefined until [start] runs; as a number that is NaN. *)
Record Metronome : Type := mkMetronome {
  bpm : number;
  subdivision : number;
  isRunning : bool;
  nextTime : number
}.

(** [new Metronome(bpm)], with the default subdivision 1. *)
Definition newMetronome (b : number) : Metronome :=
  {| bpm := b; subdivision := Fin 1; isRunning := false; nextTime := NaN |}.

(** [start()], once the audio context is available; [currentTime] is the
    context's clock. *)
Definition start (currentTime : number) (m : Metronome) : Metronome :=
  if isRunning m then m
  else {| bpm := bpm m; subdivision := subdivision m;
          isRunning := true; nextTime := currentTime |}.

Definition stop (m : Metronome) : Metronome :=
  if negb (isRunning m) then m
  else {| bpm := bpm m; subdivision := subdivision m;
          isRunning := false; nextTime := nextTime m |}.

(** [setBpm(bpm)]: [this.bpm = Number(bpm)]. *)
Definition setBpm (b : number) (m : Metronome) : Metronome :=
  {| bpm := b; subdivision := subdivision m;
     isRunning := isRunning m; nextTime := nextTime m |}.

(** [setSubdivision(n)]: [Math.max(1, Math.floor(Number(n) || 1))]. *)
Definition setSubdivision (n : number) (m : Metronome) : Metronome :=
  {| bpm := bpm m; subdivision := JS.max (Fin 1) (floor (JS.or n (Fin 1)));
     isRunning := isRunning m; nextTime := nextTime m |}.

(** *** The scheduling loop, with exact operations *)

(** The lookahead window of [_schedule], in seconds. *)
Definition LOOKAHEAD : Q := 0.1.

(** [const beatDuration = 60 / this.bpm]. *)
Definition beatDuration (m : Metronome) : number := div (Fin 60) (bpm m).

(** The [for] loop over the subdivision ticks of one beat, entered with the
    counter at [i]: one click at [nextTime + (i / subdivision) * beatDuration]
    for each [i < subdivision].  [fuel] bounds the iterations; [None] is a
    loop still running when the fuel is spent. *)
Fixpoint subTicks (fuel : nat) (i : Z) (s t d : number) : option (list click) :=
  if lt (of_Z i) s then
    match fuel with
    | O => None
    | S fuel' =>
        match subTicks fuel' (i + 1) s t d with
        | Some cs => Some (Click (add t (mul (div (of_Z i) s) d)) false :: cs)
        | None => None
        end
    end
  else Some [].

(** The body of the [while] loop up to the advance of [nextTime]: the main
    click, then the subdivision ticks if [subdivision > 1]. *)
Definition beatClicks (fuel : nat) (s t d : number) : option (list click) :=
  match (if gt s (Fin 1) then subTicks fuel 1 s t d else Some []) with
  | Some cs => Some (Click t true :: cs)
  | None => None
  end.

(** [while (this.nextTime < this.audioCtx.currentTime + 0.1) { ... }],
    started with [nextTime = t]; returns the final [nextTime] and the clicks
    played, in the order of the calls. *)
Fixpoint scheduleLoop (fuel : nat) (now s d t : number)
  : option (number * list click) :=
  if lt t (add now (Fin LOOKAHEAD)) then
    match fuel with
    | O => None
    | S fuel' =>
        match beatClicks fuel' s t d with
        | Some cs =>
            match scheduleLoop fuel' now s d (add t d) with
            | Some (t', rest) => Some (t', cs ++ rest)
            | None => None
            end
        | None => None
        end
    end
  else Some (t, []).

(** [_schedule()], run while the audio clock reads [now]. *)
Definition _schedule (fuel : nat) (now : number) (m : Metronome)
  : option (Metronome * list click) :=
  match scheduleLoop fuel now (subdivision m) (beatDuration m) (nextTime m) with
  | Some (t', cs) =>
      Some ({| bpm := bpm m; subdivision := subdivision m;
               isRunning := isRunning m; nextTime := t' |}, cs)
  | None => None
  end.

(** The number of iterations of the [while] loop of a tick: each iteration
    plays exactly one main click. *)
Definition iterations (cs : list click) : nat :=
  length (filter main cs).


(** *** A run of the scheduler

    Between two timer callbacks the page may call [setBpm] or
    [setSubdivision]; each callback runs [_schedule] against the clock value
    it finds. *)
Inductive action : Type :=
| SetBpm (b : number)
| SetSubdivision (n : number)
| Tick (now : number).

(** The clicks of a run, in the order they are handed to the audio context,
    each paired with the value of [this.bpm] during the tick that played it. *)
Fixpoint run (fuel : nat) (acts : list action) (m : Metronome)
  : option (Metronome * list (number * click)) :=
  match acts with
  | [] => Some (m, [])
  | SetBpm b :: rest => run fuel rest (setBpm b m)
  | SetSubdivision n :: rest => run fuel rest (setSubdivision n m)
  | Tick now :: rest =>
      match _schedule fuel now m with
      | Some (m', cs) =>
          match run fuel rest m' with
          | Some (m'', log) => Some (m'', map (pair (bpm m)) cs ++ log)
          | None => None
          end
      | None => None
      end
  end.

(** The main beats of a log. *)
Definition mains (log : list (number * click)) : list (number * click) :=
  filter (fun p => main (snd p)) log.

(** [c1] sounds strictly before [c2]. *)
Definition before (c1 c2 : click) : Prop := lt (time c1) (time c2) = true.

(** *** The output the design document describes *)

(** Following the document: the sub events of a main beat at [t], for a
    subdivision [s] and a beat of [d] seconds, are at [t + i/s * d] for
    [i = 1 .. s-1]. *)
Definition subSpec (s : Z) (t d : Q) : list click :=
  map (fun i : nat =>
         Click (Fin (t + (inject_Z (Z.of_nat i) / inject_Z s) * d)) false)
      (seq 1 (Z.to_nat s - 1)).

(** A main beat at [t] followed by its sub events. *)
Definition beatSpec (s : Z) (t d : Q) : list click :=
  Click (Fin t) true :: subSpec s t d.

(** [k] successive beats, the first one at [t]. *)
Fixpoint beatsSpec (k : nat) (s : Z) (t d : Q) : list click :=
  match k with
  | O => []
  | S k' => beatSpec s t d ++ beatsSpec k' s (t + d) d
  end.

(** *** The scheduler in binary64

    The same methods with every [/], [*] and [+] rounded where the
    language rounds it.  The literal [0.1] is the binary64 number nearest to
    one tenth, and the counter of the [for] loop is a number like any
    other. *)

Module Scheduler64.

(** The literal [0.1] of [_schedule]. *)
Definition LOOKAHEAD : number := Binary64.fl64 0.1.

(** [const beatDuration = 60 / this.bpm]. *)
Definition beatDuration (m : Metronome) : number :=
  Binary64.div (Fin 60) (bpm m).

(** [for (let i = ...; i < this.subdivision; i++) { ... }], entered with
    the counter at [i]. *)
Fixpoint subTicks (fuel : nat) (i s t d : number) : option (list click) :=
  if lt i s then
    match fuel with
    | O => None
    | S fuel' =>
        match subTicks fuel' (Binary64.add i (Fin 1)) s t d with
        | Some cs =>
            Some (Click (Binary64.add t (Binary64.mul (Binary64.div i s) d))
                        false :: cs)
        | None => None
        end
    end
  else Some [].

(** The body of the [while] loop up to the advance of [nextTime]. *)
Definition beatClicks (fuel : nat) (s t d : number) : option (list click) :=
  match (if gt s (Fin 1) then subTicks fuel (Fin 1) s t d else Some []) with
  | Some cs => Some (Click t true :: cs)
  | None => None
  end.

(** [while (this.nextTime < this.audioCtx.currentTime + 0.1) { ... }]. *)
Fixpoint scheduleLoop (fuel : nat) (now s d t : number)
  : option (number * list click) :=
  if lt t (Binary64.add now LOOKAHEAD) then
    match fuel with
    | O => None
    | S fuel' =>
        match beatClicks fuel' s t d with
        | Some cs =>
            match scheduleLoop fuel' now s d (Binary64.add t d) with
            | Some (t', rest) => Some (t', cs ++ rest)
            | None => None
            end
        | None => None
        end
    end
  else Some (t, []).

(** [_schedule()], run while the audio clock reads [now]. *)
Definition _schedule (fuel : nat) (now : number) (m : Metronome)
  : option (Metronome * list click) :=
  match scheduleLoop fuel now (subdivision m) (beatDuration m) (nextTime m) with
  | Some (t', cs) =>
      Some ({| bpm := bpm m; subdivision := subdivision m;
               isRunning := isRunning m; nextTime := t' |}, cs)
  | None => None
  end.

(** A run of the scheduler: the clicks in the order they are handed to the
    audio context, each with the [this.bpm] of the tick that played it. *)
Fixpoint run (fuel : nat) (acts : list action) (m : Metronome)
  : option (Metronome * list (number * click)) :=
  match acts with
  | [] => Some (m, [])
  | SetBpm b :: rest => run fuel rest (setBpm b m)
  | SetSubdivision n :: rest => run fuel rest (setSubdivision n m)
  | Tick now :: rest =>
      match _schedule fuel now m with
      | Some (m', cs) =>
          match run fuel rest m' with
          | Some (m'', log) => Some (m'', map (pair (bpm m)) cs ++ log)
          | None => None
          end
      | None => None
      end
  end.

(** Following the document: the sub events of a main beat at [t], for a
    subdivision [s] and a beat duration [d], are at [t + (i/s) * d] for
    [i = 1 .. s-1], the expression being evaluated in binary64. *)
Definition subSpec (s : Z) (t : Q) (d : number) : list click :=
  map (fun i : nat =>
         Click (Binary64.add (Fin t)
                  (Binary64.mul (Binary64.div (of_Z (Z.of_nat i)) (of_Z s)) d))
               false)
      (seq 1 (Z.to_nat s - 1)).

(** A main beat at [t] followed by its sub events. *)
Definition beatSpec (s : Z) (t : Q) (d : number) : list click :=
  Click (Fin t) true :: subSpec s t d.

End Scheduler64.

(* ------------------------------------------------------------------ *)
(** ** The page: tap tempo and practice mode *)

(** The five pulse names the settings take: ["whole"], ["half"],
    ["quarter"], ["eighth"], ["sixteenth"]. *)
Inductive pulse : Type := whole | half | quarter | eighth | sixteenth.

(** The denominator of a pulse, as [handlePass] and [startPracticeMode]
    read it off the name. *)
Definition pulseInt (p : pulse) : number :=
  match p with
  | whole => Fin 1
  | half => Fin 2
  | quarter => Fin 4
  | eighth => Fin 8
  | sixteenth => Fin 16
  end.

Record PracticeSettings : Type := mkSettings {
  startingBpm : number;
  startingPulse : pulse;
  targetBpm : number;
  targetPulse : pulse;
  requiredCorrect : number;
  increment : number;
  penalty : number
}.

(** The counters are only ever set to 0 or incremented, so they are
    integers; [dots], [startTime] and [passTime] are display state. *)
Record PracticeState : Type := mkState {
  currentBpm : number;
  correctCount : Z;
  consecutiveFails : Z;
  currentPulse : number
}.

(** The fields of the settings dialog as [savePracticeSettings] reads them:
    [Number(el.value)] for the five inputs (NaN when the text is not a
    number) and, for the two note selectors, the pulse whose glyph the
    element shows, if any. *)
Record PracticeForm : Type := mkForm {
  psStarting : number;
  psTarget : number;
  psRequired : number;
  psIncrement : number;
  psPenalty : number;
  psStartingPulse : option pulse;
  psTargetPulse : option pulse
}.

(** The messages [showMessage] is called with. *)
Inductive message : Type :=
| Congratulations        (* "Congratulations - you finished the practice!" *)
| ConsiderBreak          (* "Consider taking a break to rest and refocus." *)
| SettingsSaved.         (* "Practice settings saved" *)

(** The [type] of a practice log entry. *)
Inductive logType : Type := LogStart | LogPass | LogFail | LogLevelUp | LogExit.

(** What the practice engine sends out: toasts and log entries. *)
Inductive output : Type :=
| ShowMessage (msg : message)
| LogPracticeEntry (type : logType) (b : number).

(** The module-level state of the script.  [tapTimes] holds [Date.now()]
    readings, in milliseconds; [tapTimeout] is the deadline of the pending
    5 s timer, if one is pending. *)
Record App : Type := mkApp {
  metro : Metronome;
  practiceMode : bool;
  practiceSettings : PracticeSettings;
  practiceState : PracticeState;
  tapTimes : list Z;
  tapTimeout : option Z;
  outputs : list output
}.

Definition initialSettings : PracticeSettings :=
  {| startingBpm := Fin 60; startingPulse := quarter;
     targetBpm := Fin 120; targetPulse := quarter;
     requiredCorrect := Fin 1; increment := Fin 10; penalty := Fin 10 |}.

Definition initialState : PracticeState :=
  {| currentBpm := Fin 60; correctCount := 0; consecutiveFails := 0;
     currentPulse := Fin 4 |}.

(** The state once the script is loaded: [new Metronome(100)]. *)
Definition initialApp : App :=
  {| metro := newMetronome (Fin 100); practiceMode := false;
     practiceSettings := initialSettings; practiceState := initialState;
     tapTimes := []; tapTimeout := None; outputs := [] |}.

Definition withMetro (m : Metronome) (a : App) : App :=
  {| metro := m; practiceMode := practiceMode a;
     practiceSettings := practiceSettings a; practiceState := practiceState a;
     tapTimes := tapTimes a; tapTimeout := tapTimeout a;
     outputs := outputs a |}.

Definition withMode (b : bool) (a : App) : App :=
  {| metro := metro a; practiceMode := b;
     practiceSettings := practiceSettings a; practiceState := practiceState a;
     tapTimes := tapTimes a; tapTimeout := tapTimeout a;
     outputs := outputs a |}.

Definition withSettings (s : PracticeSettings) (a : App) : App :=
  {| metro := metro a; practiceMode := practiceMode a;
     practiceSettings := s; practiceState := practiceState a;
     tapTimes := tapTimes a; tapTimeout := tapTimeout a;
     outputs := outputs a |}.

Definition withState (s : PracticeState) (a : App) : App :=
  {| metro := metro a; practiceMode := practiceMode a;
     practiceSettings := practiceSettings a; practiceState := s;
     tapTimes := tapTimes a; tapTimeout := tapTimeout a;
     outputs := outputs a |}.

Definition withTaps (ts : list Z) (timeout : option Z) (a : App) : App :=
  {| metro := metro a; practiceMode := practiceMode a;
     practiceSettings := practiceSettings a; practiceState := practiceState a;
     tapTimes := ts; tapTimeout := timeout; outputs := outputs a |}.

(** Appends one output; [showMessage] and [logPracticeEntry] go through it. *)
Definition emit (o : output) (a : App) : App :=
  {| metro := metro a; practiceMode := practiceMode a;
     practiceSettings := practiceSettings a; practiceState := practiceState a;
     tapTimes := tapTimes a; tapTimeout := tapTimeout a;
     outputs := outputs a ++ [o] |}.

Definition showMessage (msg : message) : App -> App := emit (ShowMessage msg).

Definition logPracticeEntry (type : logType) (b : number) : App -> App :=
  emit (LogPracticeEntry type b).

(** [metro.setBpm(b)]. *)
Definition metroSetBpm (b : number) (a : App) : App :=
  withMetro (setBpm b (metro a)) a.

(** *** Tap tempo *)

(** [tapTimes[i] - tapTimes[i - 1]] for [i = 1 .. length - 1]. *)
Fixpoint intervals (ts : list Z) : list Z :=
  match ts with
  | a :: (b :: _) as rest => (b - a)%Z :: intervals rest
  | _ => []
  end.

(** [xs.reduce((a, b) => a + b)]; it throws on an empty array. *)
Definition reduceAdd (xs : list Z) : option Z :=
  match xs with
  | [] => None
  | x :: rest => Some (fold_left Z.add rest x)
  end.

(** The tempo [handleTap] derives from a buffer of at least two taps.  The
    timestamps are integers below [2^53], on which [-] and [+] are exact;
    the two divisions are rounded. *)
Definition tapBpm (ts : list Z) : option number :=
  match reduceAdd (intervals ts) with
  | Some total =>
      let avgInterval :=
        Binary64.div (of_Z total) (of_Z (Z.of_nat (length (intervals ts)))) in
      let avgBpm := round (Binary64.div (Fin 60000) avgInterval) in
      Some (JS.max (Fin 20) (JS.min (Fin 300) avgBpm))
  | None => None
  end.

(** [handleTap()], with [now = Date.now()]. *)
Definition handleTap (now : Z) (a : App) : App :=
  let pushed := tapTimes a ++ [now] in
  let kept := if (5 <? length pushed)%nat then tl pushed else pushed in
  let a1 := withTaps kept (Some (now + 5000)%Z) a in
  if (2 <=? length kept)%nat then
    match tapBpm kept with
    | Some newBpm => metroSetBpm newBpm a1
    | None => a1
    end
  else a1.

(** The callback of the 5 s timer: [tapTimes = []]. *)
Definition tapTimeoutFires (a : App) : App := withTaps [] None a.

(** The timer callbacks due by [now] run before an event read at [now]. *)
Definition elapse (now : Z) (a : App) : App :=
  match tapTimeout a with
  | Some deadline => if (deadline <=? now)%Z then tapTimeoutFires a else a
  | None => a
  end.


(** *** Tempo buttons *)

(** [_doIncrement(delta)]. *)
Definition _doIncrement (delta : number) (a : App) : App :=
  metroSetBpm
    (JS.max (Fin 20) (JS.min (Fin 300) (round (add (bpm (metro a)) delta)))) a.

(** [startHoldInc()]: in practice mode the button doubles the pulse;
    otherwise it steps the tempo up by one (the repeat timers are left out). *)
Definition startHoldInc (a : App) : App :=
  if practiceMode a then
    if lt (currentPulse (practiceState a)) (Fin 16) then
      let newBpm := JS.min (Fin 300) (floor (mul (bpm (metro a)) (Fin 2))) in
      let a1 := metroSetBpm newBpm a in
      withState {| currentBpm := newBpm;
                   correctCount := correctCount (practiceState a1);
                   consecutiveFails := consecutiveFails (practiceState a1);
                   currentPulse := mul (currentPulse (practiceState a1)) (Fin 2) |}
                a1
    else a
  else _doIncrement (Fin 1) a.

(** [startHoldDec()]: in practice mode the button halves the pulse. *)
Definition startHoldDec (a : App) : App :=
  if practiceMode a then
    if gt (currentPulse (practiceState a)) (Fin 1) then
      let newBpm := JS.max (Fin 20) (floor (div (bpm (metro a)) (Fin 2))) in
      let a1 := metroSetBpm newBpm a in
      withState {| currentBpm := newBpm;
                   correctCount := correctCount (practiceState a1);
                   consecutiveFails := consecutiveFails (practiceState a1);
                   currentPulse := div (currentPulse (practiceState a1)) (Fin 2) |}
                a1
    else a
  else _doIncrement (Fin (-1)) a.

(** *** Practice mode *)

(** [savePracticeSettings()], on the settings [s] in force. *)
Definition savePracticeSettings (f : PracticeForm) (s : PracticeSettings)
  : PracticeSettings :=
  {| startingBpm := JS.or (psStarting f) (startingBpm s);
     startingPulse :=
       match psStartingPulse f with Some p => p | None => startingPulse s end;
     targetBpm := JS.or (psTarget f) (targetBpm s);
     targetPulse :=
       match psTargetPulse f with Some p => p | None => targetPulse s end;
     requiredCorrect :=
       JS.max (Fin 1) (JS.or (psRequired f) (requiredCorrect s));
     increment := JS.max (Fin 1) (JS.or (psIncrement f) (increment s));
     penalty := JS.max (Fin 0) (psPenalty f) |}.

(** [startPracticeMode()]; [currentTime] is the audio clock read by
    [metro.start()] when the metronome is not running yet. *)
Definition startPracticeMode (currentTime : number) (a : App) : App :=
  let a1 := withMode true a in
  let st := practiceState a1 in
  let cur := startingBpm (practiceSettings a1) in
  let a2 := metroSetBpm cur a1 in
  let a3 :=
    withState {| currentBpm := cur; correctCount := 0; consecutiveFails := 0;
                 currentPulse := pulseInt (startingPulse (practiceSettings a2)) |}
              a2 in
  let a4 := logPracticeEntry LogStart cur a3 in
  withMetro (start currentTime (metro a4)) a4.

(** The click on the start button of the settings dialog. *)
Definition startPracticeClick (f : PracticeForm) (currentTime : number)
    (a : App) : App :=
  let a1 := withSettings (savePracticeSettings f (practiceSettings a)) a in
  showMessage SettingsSaved (startPracticeMode currentTime a1).

(** [exitPracticeMode()]. *)
Definition exitPracticeMode (a : App) : App :=
  let a1 := withMode false a in
  logPracticeEntry LogExit (bpm (metro a1)) a1.

(** [handlePass()]. *)
Definition handlePass (a : App) : App :=
  if negb (practiceMode a) then a
  else
    let st := practiceState a in
    let cfg := practiceSettings a in
    let count := (correctCount st + 1)%Z in
    let a1 :=
      withState {| currentBpm := currentBpm st; correctCount := count;
                   consecutiveFails := 0; currentPulse := currentPulse st |} a in
    let targetPulseInt := pulseInt (targetPulse cfg) in
    if ge (of_Z count) (requiredCorrect cfg) then
      if ge (div (currentBpm st) (currentPulse st))
            (div (targetBpm cfg) targetPulseInt)
      then
        exitPracticeMode
          (showMessage Congratulations
             (logPracticeEntry LogPass (currentBpm st) a1))
      else
        let next :=
          JS.min (mul (div (targetBpm cfg) targetPulseInt) (currentPulse st))
                 (add (currentBpm st) (increment cfg)) in
        let a2 :=
          withState {| currentBpm := next; correctCount := count;
                       consecutiveFails := 0; currentPulse := currentPulse st |}
                    a1 in
        let a3 := logPracticeEntry LogLevelUp next (metroSetBpm next a2) in
        withState {| currentBpm := next; correctCount := 0;
                     consecutiveFails := 0; currentPulse := currentPulse st |}
                  a3
    else a1.

(** [handleFail()]. *)
Definition handleFail (a : App) : App :=
  if negb (practiceMode a) then a
  else
    let st := practiceState a in
    let fails := (consecutiveFails st + 1)%Z in
    let suggest := (3 <=? fails)%Z in
    let a1 := if suggest then showMessage ConsiderBreak a else a in
    let next := JS.max (Fin 20) (sub (currentBpm st) (penalty (practiceSettings a))) in
    let a2 :=
      withState {| currentBpm := next; correctCount := 0;
                   consecutiveFails := if suggest then 0%Z else fails;
                   currentPulse := currentPulse st |} a1 in
    logPracticeEntry LogFail next (metroSetBpm next a2).

(** The events of a practice session. *)
Inductive practiceEvent : Type :=
| Pass
| Fail
| Double
| Halve.

Definition practiceStep (e : practiceEvent) (a : App) : App :=
  match e with
  | Pass => handlePass a
  | Fail => handleFail a
  | Double => startHoldInc a
  | Halve => startHoldDec a
  end.

Definition practiceRun (es : list practiceEvent) (a : App) : App :=
  fold_left (fun acc e => practiceStep e acc) es a.

(** How many times [msg] was shown. *)
Definition shown (msg : message) (os : list output) : nat :=
  length (filter (fun o => match o with
                           | ShowMessage m =>
                               match m, msg with
                               | Congratulations, Congratulations
                               | ConsiderBreak, ConsiderBreak
                               | SettingsSaved, SettingsSaved => true
                               | _, _ => false
                               end
                           | _ => false
                           end) os).

(** The metronome plays the tempo of the practice session. *)
Definition inSync (a : App) : Prop :=
  bpm (metro a) = currentBpm (practiceState a).

(* ------------------------------------------------------------------ *)
(** ** Predicates used in the statements *)

(** The click sounds at a finite time in [[lo, hi)]. *)
Definition timeIn (lo hi : Q) (c : click) : Prop :=
  exists q, time c = Fin q /\ lo <= q /\ q < hi.

(** The time of the first beat of [l], or [tend] when there is none. *)
Definition front (l : list (number * click)) (tend : number) : number :=
  match l with
  | [] => tend
  | (_, c) :: _ => time c
  end.




(** *** Bounds for the binary64 statements

    A clock below [2^22] seconds (forty-eight days of audio time), at most
    1024 subdivisions, and timestamps compared up to [2^-30] seconds, just
    under a nanosecond. *)
Definition CLOCK_MAX : Q := 4194304.
Definition SUB_MAX : Z := 1024.
Definition TIME_EPS : Q := 1 # 1073741824.

(** The actions of a bounded run: a tempo in [[20, 300]], a subdivision
    request that is not above [SUB_MAX], a tick at a clock value in
    [[0, CLOCK_MAX]]. *)
Definition boundedAction (a : action) : Prop :=
  match a with
  | SetBpm b => within 20 300 b
  | SetSubdivision n => gt n (of_Z SUB_MAX) = false
  | Tick now => within 0 CLOCK_MAX now
  end.

(** A metronome with a tempo in [[20, 300]] and an integer subdivision
    between 1 and [SUB_MAX]. *)
Definition boundedMetronome (m : Metronome) : Prop :=
  within 20 300 (bpm m)
  /\ exists s, (1 <= s <= SUB_MAX)%Z /\ subdivision m = of_Z s.

(** In binary64: each beat of [l], moved by its own beat duration, is the
    next one, and the last one gives [tend]. *)
Fixpoint chain64 (l : list (number * click)) (tend : number) : Prop :=
  match l with
  | [] => True
  | (b, c) :: tl =>
      Binary64.add (time c) (Binary64.div (Fin 60) b) = front tl tend
      /\ chain64 tl tend
  end.

(** Each main beat is followed by the next one [60 / bpm] seconds later,
    up to [e] seconds. *)
Fixpoint spacedWithin (e : Q) (l : list (number * click)) : Prop :=
  match l with
  | [] => True
  | (b, c) :: tl =>
      match tl with
      | [] => True
      | (_, c') :: _ =>
          exists bq q q' : Q,
            b = Fin bq /\ time c = Fin q /\ time c' = Fin q'
            /\ Qabs (q' - q - 60 / bq) <= e
      end /\ spacedWithin e tl
  end.

(** The clicks of [l] are those of [l0], one by one, up to [e] seconds. *)
Definition closeTo (e : Q) (l l0 : list click) : Prop :=
  Forall2 (fun k k0 =>
             main k = main k0
             /\ exists q q0 : Q,
                  time k = Fin q /\ time k0 = Fin q0 /\ Qabs (q - q0) <= e)
          l l0.

(** The main beats [ts] of a tick: they start at [t], each is the binary64
    sum of the previous one and [d], and the sum after the last one is
    [t']. *)
Fixpoint mainChain (d : number) (ts : list Q) (t t' : Q) : Prop :=
  match ts with
  | [] => t' = t
  | u :: tl =>
      u = t /\ exists t1 : Q,
                 Binary64.add (Fin u) d = Fin t1 /\ mainChain d tl t1 t'
  end.

(** The invariant of a bounded run when the next main beat is committed at
    [t]. *)
Definition committed64 (log : list (number * click)) (t : Q) : Prop :=
  StronglySorted before (map snd log)
  /\ Forall (fun c => exists q, time c = Fin q /\ 0 <= q /\ q < t) (map snd log)
  /\ Forall (fun p => within 20 300 (fst p)) log
  /\ chain64 (mains log) (Fin t).

(** Following the document: the arithmetic mean of the consecutive
    inter-tap intervals of a buffer, in milliseconds. *)
Definition meanInterval (ts : list Z) : Q :=
  inject_Z (fold_right Z.add 0%Z (intervals ts))
  / inject_Z (Z.of_nat (length (intervals ts))).

(** The mean interval as [handleTap] computes it: the sum of the
    intervals, which is exact, divided in binary64 by their number. *)
Definition avgInterval (ts : list Z) : number :=
  Binary64.div (of_Z (fold_right Z.add 0%Z (intervals ts)))
               (of_Z (Z.of_nat (length (intervals ts)))).

(** [Math.round(60000 / avgInterval)]. *)
Definition avgBpm (ts : list Z) : number :=
  round (Binary64.div (Fin 60000) (avgInterval ts)).





(* ------------------------------------------------------------------ *)
(** ** The voice of a click *)




(* ------------------------------------------------------------------ *)
(** ** Tempo names *)

(** One row of [tempoNames]. *)
Record tempoRange : Type := mkRange {
  rangeMin : Q;
  rangeMax : Q;
  rangeName : string
}.

Definition tempoNames : list tempoRange :=
  [ mkRange 0 39 "Grave"%string;
    mkRange 40 59 "Largo"%string;
    mkRange 60 65 "Larghetto"%string;
    mkRange 66 75 "Adagio"%string;
    mkRange 76 89 "Andante"%string;
    mkRange 90 104 "Moderato"%string;
    mkRange 105 114 "Allegretto"%string;
    mkRange 115 129 "Allegro"%string;
    mkRange 130 167 "Vivace"%string;
    mkRange 168 199 "Presto"%string;
    mkRange 200 500 "Prestissimo"%string ].

(** The [for ... of] loop of [getTempoName] over the rows left to try. *)
Fixpoint tempoNameIn (rows : list tempoRange) (b : number) : string :=
  match rows with
  | [] => "Larghissimo"%string
  | row :: rest =>
      if ge b (Fin (rangeMin row)) && le b (Fin (rangeMax row))
      then rangeName row
      else tempoNameIn rest b
  end.

(** [getTempoName(bpm)]. *)
Definition getTempoName (b : number) : string := tempoNameIn tempoNames b.

(* ------------------------------------------------------------------ *)
(** ** The tempo circle: drag, click and tap mode *)

(** The page state the circle handlers add to [App]: the drag flag and its
    reference ordinate, the tap-mode flag with the deadline of its pending
    2 s timer, and what the tempo display shows: the number in [bpmDisplay]
    and the text of [tempoName] with its saved copy [tempoName._prev]. *)
Record Page : Type := mkPage {
  app : App;
  isDragging : bool;
  dragStartY : number;
  tapMode : bool;
  tapModeTimer : option Z;
  bpmDisplay : number;
  tempoName : string;
  tempoNamePrev : option string
}.

Definition withApp (a : App) (p : Page) : Page :=
  {| app := a; isDragging := isDragging p; dragStartY := dragStartY p;
     tapMode := tapMode p; tapModeTimer := tapModeTimer p;
     bpmDisplay := bpmDisplay p; tempoName := tempoName p;
     tempoNamePrev := tempoNamePrev p |}.

Definition withDrag (dragging : bool) (y : number) (p : Page) : Page :=
  {| app := app p; isDragging := dragging; dragStartY := y;
     tapMode := tapMode p; tapModeTimer := tapModeTimer p;
     bpmDisplay := bpmDisplay p; tempoName := tempoName p;
     tempoNamePrev := tempoNamePrev p |}.

(** [updateBpmDisplay()]: the rounded tempo goes to [bpmDisplay]; its name
    goes to [tempoName] unless tap mode is on. *)
Definition updateBpmDisplay (p : Page) : Page :=
  let b := round (bpm (metro (app p))) in
  {| app := app p; isDragging := isDragging p; dragStartY := dragStartY p;
     tapMode := tapMode p; tapModeTimer := tapModeTimer p;
     bpmDisplay := b;
     tempoName := if negb (tapMode p) then getTempoName b else tempoName p;
     tempoNamePrev := tempoNamePrev p |}.

(** The page as the script leaves it once loaded: [loadState] with nothing
    saved, then [updateBpmDisplay()]. *)
Definition initialPage : Page :=
  updateBpmDisplay
    {| app := initialApp; isDragging := false; dragStartY := Fin 0;
       tapMode := false; tapModeTimer := None;
       bpmDisplay := Fin 0; tempoName := EmptyString; tempoNamePrev := None |}.

(** The [mousedown] listener of the circle, with [e.clientY]. *)
Definition mousedown (clientY : number) (p : Page) : Page :=
  if practiceMode (app p) then p else withDrag true clientY p.


(** The body shared by the [mousemove] and [touchmove] listeners. *)
Definition dragMove (clientY : number) (p : Page) : Page :=
  if negb (isDragging p) then p
  else
    let deltaY := sub (dragStartY p) clientY in
    let bpmChange := round (div deltaY (Fin 3)) in
    let newBpm :=
      JS.max (Fin 20) (JS.min (Fin 300) (add (bpm (metro (app p))) bpmChange)) in
    withDrag (isDragging p) clientY
      (updateBpmDisplay (withApp (metroSetBpm newBpm (app p)) p)).


(** The [mouseup] and [touchend] listeners. *)
Definition mouseup (p : Page) : Page := withDrag false (dragStartY p) p.
Definition touchend (p : Page) : Page := withDrag false (dragStartY p) p.

(** [handleTap()] with the display update of its last branch. *)
Definition pageHandleTap (now : Z) (p : Page) : Page :=
  let p1 := withApp (handleTap now (app p)) p in
  if (2 <=? length (tapTimes (app p1)))%nat then updateBpmDisplay p1 else p1.

(** [enterTapMode()], at time [now]: the label is saved and replaced by
    ["TAP"], and the 2 s timer is armed again. *)
Definition enterTapMode (now : Z) (p : Page) : Page :=
  {| app := app p; isDragging := isDragging p; dragStartY := dragStartY p;
     tapMode := true; tapModeTimer := Some (now + 2000)%Z;
     bpmDisplay := bpmDisplay p; tempoName := "TAP"%string;
     tempoNamePrev := Some (tempoName p) |}.

(** [exitTapMode()]: the taps and their 5 s timer are dropped and the saved
    label is put back. *)
Definition exitTapMode (p : Page) : Page :=
  {| app := withTaps [] None (app p);
     isDragging := isDragging p; dragStartY := dragStartY p;
     tapMode := false; tapModeTimer := None;
     bpmDisplay := bpmDisplay p;
     tempoName :=
       match tempoNamePrev p with Some prev => prev | None => tempoName p end;
     tempoNamePrev := None |}.

(** The [click] listener of the circle, at time [now]. *)
Definition circleClick (now : Z) (p : Page) : Page :=
  if isDragging p then p
  else if practiceMode (app p) then p
  else enterTapMode now (pageHandleTap now p).

(** The timer callbacks due by [now]: the tap-mode timer, which also
    cancels the 5 s timer of the taps, or else that timer alone. *)
Definition pageElapse (now : Z) (p : Page) : Page :=
  match tapModeTimer p with
  | Some deadline =>
      if (deadline <=? now)%Z then exitTapMode p
      else withApp (elapse now (app p)) p
  | None => withApp (elapse now (app p)) p
  end.

(** A click on the circle at [now], after the timers due by then. *)
Definition clickAt (now : Z) (p : Page) : Page :=
  circleClick now (pageElapse now p).

(** A run of pointer moves: the ordinates of successive [mousemove] or
    [touchmove] events. *)
Definition dragMoves (ys : list Q) (p : Page) : Page :=
  fold_left (fun acc y => dragMove (Fin y) acc) ys p.

(** Each move of [ys], taken from the previous ordinate ([y0] for the first
    one), is shorter than 1.5 pixels. *)
Fixpoint slowMoves (y0 : Q) (ys : list Q) : Prop :=
  match ys with
  | [] => True
  | y :: rest => - (3 # 2) <= y0 - y /\ y0 - y < 3 # 2 /\ slowMoves y rest
  end.

(* ------------------------------------------------------------------ *)
(** ** The service worker *)

Module ServiceWorker.

Definition CACHE_NAME : string := "metronome-v1"%string.

Definition ASSETS_TO_CACHE : list string :=
  [ "."%string; "/index.html"%string; "/style.css"%string;
    "/metronome.js"%string; "/manifest.json"%string;
    "/icons/icon-192.svg"%string; "/icons/icon-512.svg"%string ].

(** The parts of a request the worker looks at. *)
Record request : Type := mkRequest {
  method : string;
  mode : string;
  url : string
}.

(** A response, by its content. *)
Definition response : Type := string.

(** A cache maps request URLs to responses; the cache storage maps cache
    names to caches, in the order the caches were created. *)
Definition cache : Type := list (string * response).
Definition cacheStorage : Type := list (string * cache).

(** The network: the response [fetch] resolves with, or [None] when it
    rejects. *)
Definition network : Type := string -> option response.

(** [cache.match(url)]. *)
Fixpoint cacheMatch (c : cache) (u : string) : option response :=
  match c with
  | [] => None
  | (k, r) :: rest => if String.eqb k u then Some r else cacheMatch rest u
  end.

(** [caches.match(url)]: the first cache, in creation order, that has it. *)
Fixpoint cachesMatch (cs : cacheStorage) (u : string) : option response :=
  match cs with
  | [] => None
  | (_, c) :: rest =>
      match cacheMatch c u with
      | Some r => Some r
      | None => cachesMatch rest u
      end
  end.

(** [cache.put(url, response)]: the entry replaces any entry of that URL. *)
Definition cachePut (u : string) (r : response) (c : cache) : cache :=
  filter (fun e => negb (String.eqb (fst e) u)) c ++ [(u, r)].

(** [caches.open(name)], which creates the cache when there is none. *)
Definition cachesOpen (name : string) (cs : cacheStorage) : cacheStorage :=
  if existsb (fun e => String.eqb (fst e) name) cs then cs
  else cs ++ [(name, [])].

(** [caches.open(name).then(cache => cache.put(url, response))]. *)
Fixpoint cachesPut (name u : string) (r : response) (cs : cacheStorage)
  : cacheStorage :=
  match cs with
  | [] => [(name, [(u, r)])]
  | (n, c) :: rest =>
      if String.eqb n name then (n, cachePut u r c) :: rest
      else (n, c) :: cachesPut name u r rest
  end.

(** The fetches of [cache.addAll(urls)]: all of them succeed or the call
    rejects. *)
Fixpoint fetchAll (net : network) (us : list string)
  : option (list (string * response)) :=
  match us with
  | [] => Some []
  | u :: rest =>
      match net u, fetchAll net rest with
      | Some r, Some entries => Some ((u, r) :: entries)
      | _, _ => None
      end
  end.

(** The [install] listener: whether the promise given to [waitUntil]
    resolved, and the cache storage afterwards. *)
Definition install (net : network) (cs : cacheStorage) : bool * cacheStorage :=
  let cs1 := cachesOpen CACHE_NAME cs in
  match fetchAll net ASSETS_TO_CACHE with
  | Some entries =>
      (true,
       fold_left (fun acc e => cachesPut CACHE_NAME (fst e) (snd e) acc)
                 entries cs1)
  | None => (false, cs1)
  end.

(** The [activate] listener: [caches.delete(key)] for every other key. *)
Definition activate (cs : cacheStorage) : cacheStorage :=
  filter (fun e => String.eqb (fst e) CACHE_NAME) cs.

(** What the [fetch] listener does with a request: nothing (the browser
    handles it), or [respondWith] a response, [None] being [undefined]. *)
Inductive fetchResult : Type :=
| NotHandled
| RespondWith (r : option response).

(** How a call [cache.put(request, response)] ends.  It throws, and the
    [catch] around it swallows the exception; or it returns a promise that
    is rejected later (a request or a response that cannot be cached); or
    it returns a promise that resolves once the entry is stored. *)
Inductive putOutcome : Type :=
| PutThrows
| PutRejects
| PutStores.

(** The cache layer: how the put of a response under a URL ends. *)
Definition putPolicy : Type := string -> response -> putOutcome.

(** A put that has been started.  The listener does not wait for it: the
    entry, if it is stored at all, is stored when the put settles. *)
Record pendingPut : Type := mkPending {
  putUrl : string;
  putResponse : response;
  putStored : bool
}.

(** The [fetch] listener: what it responds with, the cache storage when it
    responds, and the put it leaves running. *)
Definition onFetch (net : network) (put : putPolicy) (req : request)
    (cs : cacheStorage)
  : fetchResult * cacheStorage * option pendingPut :=
  if negb (String.eqb (method req) "GET"%string) then (NotHandled, cs, None)
  else
    match cachesMatch cs (url req) with
    | Some cacheRes => (RespondWith (Some cacheRes), cs, None)
    | None =>
        match net (url req) with
        | Some networkRes =>
            (RespondWith (Some networkRes),
             cachesOpen CACHE_NAME cs,
             match put (url req) networkRes with
             | PutThrows => None
             | PutRejects => Some (mkPending (url req) networkRes false)
             | PutStores => Some (mkPending (url req) networkRes true)
             end)
        | None =>
            if String.eqb (mode req) "navigate"%string
            then (RespondWith (cachesMatch cs "/index.html"%string), cs, None)
            else (RespondWith None, cs, None)
        end
    end.

(** A pending put settles. *)
Definition settle (p : pendingPut) (cs : cacheStorage) : cacheStorage :=
  if putStored p then cachesPut CACHE_NAME (putUrl p) (putResponse p) cs
  else cs.

(** The cache storage after a [fetch] event, once the put it started, if
    any, has settled. *)
Definition settled (r : fetchResult * cacheStorage * option pendingPut)
  : cacheStorage :=
  match snd r with
  | Some p => settle p (snd (fst r))
  | None => snd (fst r)
  end.

End ServiceWorker.

(* ------------------------------------------------------------------ *)
(** ** The stopwatch display *)

(** [String(z)] for an integer. *)
Definition jsString (z : Z) : string := NilZero.string_of_int (Z.to_int z).

(** [n] copies of the character ["0"]. *)
Fixpoint zeros (n : nat) : string :=
  match n with
  | O => EmptyString
  | S n' => String "0"%char (zeros n')
  end.

(** [s.padStart(targetLength, "0")]. *)
Definition padStart (targetLength : nat) (s : string) : string :=
  if (String.length s <? targetLength)%nat
  then String.append (zeros (targetLength - String.length s)) s
  else s.

(** The text [updateStopwatch()] writes for [stopwatchSeconds]:
    [Math.floor(stopwatchSeconds / 60)] and [stopwatchSeconds % 60], each
    padded to two characters, around a colon. *)
Definition updateStopwatch (stopwatchSeconds : Z) : string :=
  String.append (padStart 2 (jsString (stopwatchSeconds / 60)))
    (String.append ":"%string
       (padStart 2 (jsString (Z.rem stopwatchSeconds 60)))).

(** The character of a decimal digit. *)
Definition digitChar (d : Z) : Ascii.ascii :=
  Ascii.ascii_of_nat (48 + Z.to_nat d).

(** Following the usual reading of a clock: tens and units of the minutes,
    a colon, tens and units of the seconds. *)
Definition clockText (seconds : Z) : string :=
  String (digitChar (seconds / 600))
    (String (digitChar (seconds / 60 mod 10))
       (String ":"%char
          (String (digitChar (seconds mod 60 / 10))
             (String (digitChar (seconds mod 10)) EmptyString)))).

(* ------------------------------------------------------------------ *)
(** ** Facts about numbers *)

(** Unfolds the record updates of the page state and reads the fields. *)
Ltac app_simpl :=
  unfold exitPracticeMode, showMessage, logPracticeEntry, metroSetBpm, emit,
    withMode, withState, withMetro, withSettings, withTaps;
  cbn [metro practiceMode practiceSettings practiceState tapTimes tapTimeout
       outputs bpm subdivision isRunning nextTime setBpm
       currentBpm correctCount consecutiveFails currentPulse].

Lemma Qltb_true (a b : Q) : Qltb a b = true <-> a < b.
Proof.
  unfold Qltb. rewrite negb_true_iff, <- not_true_iff_false, Qle_bool_iff.
  split; [apply Qnot_le_lt | apply Qlt_not_le].
Qed.

Lemma Qltb_false (a b : Q) : Qltb a b = false <-> b <= a.
Proof.
  unfold Qltb. rewrite negb_false_iff. apply Qle_bool_iff.
Qed.

Lemma Qeq_bool_false (a b : Q) : ~ a == b -> Qeq_bool a b = false.
Proof.
  intros H. destruct (Qeq_bool a b) eqn:E; [|reflexivity].
  apply Qeq_bool_iff in E. contradiction.
Qed.

Lemma div_Fin (x y : Q) : ~ y == 0 -> div (Fin x) (Fin y) = Fin (x / y).
Proof. intros H. simpl. now rewrite (Qeq_bool_false _ _ H). Qed.

Lemma lt_of_Z (a b : Z) : lt (of_Z a) (of_Z b) = (a <? b)%Z.
Proof.
  simpl. destruct (Z.ltb_spec a b) as [H|H].
  - apply Qltb_true. now rewrite <- Zlt_Qlt.
  - apply Qltb_false. now rewrite <- Zle_Qle.
Qed.


Lemma max_of_Z (a b : Z) : JS.max (of_Z a) (of_Z b) = of_Z (Z.max a b).
Proof.
  unfold JS.max, of_Z at 1 2. fold (of_Z a). fold (of_Z b). rewrite lt_of_Z.
  destruct (Z.ltb_spec a b).
  - now rewrite Z.max_r by lia.
  - now rewrite Z.max_l by lia.
Qed.

Lemma min_of_Z (a b : Z) : JS.min (of_Z a) (of_Z b) = of_Z (Z.min a b).
Proof.
  unfold JS.min, of_Z at 1 2. fold (of_Z a). fold (of_Z b). rewrite lt_of_Z.
  destruct (Z.ltb_spec b a).
  - now rewrite Z.min_r by lia.
  - now rewrite Z.min_l by lia.
Qed.

(* ------------------------------------------------------------------ *)
(** ** Binary64: the rounding

    [fl64] is a relative error of at most [2^-53] on normal numbers, keeps
    the integers below [2^53], depends on the value of the rational only,
    and keeps the sign. *)

Section Rounding.

Import Binary64.

Lemma pow2_pos (e : Z) : 0 < 2 ^ e.
Proof. apply Qpower_0_lt. reflexivity. Qed.

Lemma pow2_succ (e : Z) : 2 ^ (e + 1) == 2 * 2 ^ e.
Proof. rewrite Qpower_plus by discriminate. rewrite Qpower_1_r. ring. Qed.

Lemma pow2_pred (e : Z) : 2 * 2 ^ (e - 1) == 2 ^ e.
Proof.
  rewrite <- pow2_succ. replace (e - 1 + 1)%Z with e by lia. reflexivity.
Qed.

Lemma pow2_Z (a : Z) : (0 <= a)%Z -> inject_Z (2 ^ a) == 2 ^ a.
Proof. intros H. rewrite Zpower_Qpower by assumption. reflexivity. Qed.

Lemma pow2_le (a b : Z) : (a <= b)%Z -> 2 ^ a <= 2 ^ b.
Proof. intros H. apply Qpower_le_compat_l; [assumption | discriminate]. Qed.

Lemma pow2_lt (a b : Z) : (a < b)%Z -> 2 ^ a < 2 ^ b.
Proof. intros H. apply Qpower_lt_compat_l; [assumption | reflexivity]. Qed.

Lemma Qabs_nonzero (q : Q) : ~ q == 0 -> 0 < Qabs q.
Proof.
  intros H. destruct (Qlt_le_dec 0 (Qabs q)) as [|Hle]; [assumption|].
  exfalso. apply H. apply Qabs_Qle_condition in Hle. lra.
Qed.

Lemma mag_spec (q : Q) :
  ~ q == 0 -> 2 ^ (mag q - 1) <= Qabs q /\ Qabs q < 2 ^ mag q.
Proof.
  intros Hq. unfold mag.
  set (n := Z.abs (Qnum q)). set (d := Zpos (Qden q)).
  assert (Hn : (0 < n)%Z).
  { unfold n. destruct q as [[|p|p] dd]; simpl; try lia.
    exfalso. apply Hq. reflexivity. }
  assert (Hd : (0 < d)%Z) by (unfold d; lia).
  destruct (Z.log2_spec n Hn) as [Ha1 Ha2].
  destruct (Z.log2_spec d Hd) as [Hb1 Hb2].
  pose proof (Z.log2_nonneg n) as Ha0. pose proof (Z.log2_nonneg d) as Hb0.
  set (a := Z.log2 n) in *. set (b := Z.log2 d) in *.
  assert (HA : 2 ^ a <= inject_Z n /\ inject_Z n < 2 * 2 ^ a).
  { rewrite <- pow2_succ, <- !pow2_Z by lia. split.
    - now rewrite <- Zle_Qle.
    - rewrite <- Zlt_Qlt. exact Ha2. }
  assert (HB : 2 ^ b <= inject_Z d /\ inject_Z d < 2 * 2 ^ b).
  { rewrite <- pow2_succ, <- !pow2_Z by lia. split.
    - now rewrite <- Zle_Qle.
    - rewrite <- Zlt_Qlt. exact Hb2. }
  assert (Habs : Qabs q == inject_Z n / inject_Z d).
  { destruct q as [qn qd]. unfold n, d. simpl. apply Qmake_Qdiv. }
  pose proof (pow2_pos a) as Pa. pose proof (pow2_pos b) as Pb.
  assert (Hab : 2 ^ (a - b) == 2 ^ a / 2 ^ b)
    by (apply Qpower_minus; discriminate).
  assert (HD : 0 < inject_Z d) by lra.
  assert (Hlo : 2 ^ (a - b) < 2 * Qabs q).
  { rewrite Hab, Habs. apply Qlt_shift_div_r; [assumption|].
    assert (E : 2 * (inject_Z n / inject_Z d) * 2 ^ b
                == (2 * inject_Z n * 2 ^ b) / inject_Z d) by (field; lra).
    rewrite E. apply Qlt_shift_div_l; [assumption|]. nra. }
  assert (Hhi : Qabs q < 2 * 2 ^ (a - b)).
  { rewrite Hab, Habs. apply Qlt_shift_div_r; [assumption|].
    assert (E : 2 * (2 ^ a / 2 ^ b) * inject_Z d
                == (2 * 2 ^ a * inject_Z d) / 2 ^ b) by (field; lra).
    rewrite E. apply Qlt_shift_div_l; [assumption|]. nra. }
  destruct (Qle_bool (2 ^ (a - b)) (Qabs q)) eqn:E.
  - apply Qle_bool_iff in E. replace (a - b + 1 - 1)%Z with (a - b)%Z by lia.
    rewrite pow2_succ. split; assumption.
  - assert (Hlt : Qabs q < 2 ^ (a - b)).
    { apply Qnot_le_lt. intros H. apply Qle_bool_iff in H. congruence. }
    split; [|assumption].
    pose proof (pow2_pred (a - b)). lra.
Qed.

Lemma mag_unique (q : Q) (e : Z) :
  2 ^ (e - 1) <= Qabs q -> Qabs q < 2 ^ e -> mag q = e.
Proof.
  intros H1 H2.
  assert (Hq : ~ q == 0).
  { intros E. rewrite E in H1. pose proof (pow2_pos (e - 1)).
    change (Qabs 0) with 0 in H1. lra. }
  destruct (mag_spec q Hq) as [M1 M2].
  assert (A : (mag q - 1 < e)%Z).
  { apply Qpower_lt_compat_l_inv with 2; [lra | reflexivity]. }
  assert (B : (e - 1 < mag q)%Z).
  { apply Qpower_lt_compat_l_inv with 2; [lra | reflexivity]. }
  lia.
Qed.

Lemma nearestEven_spec (x : Q) :
  x - (1 # 2) <= inject_Z (nearestEven x)
  /\ inject_Z (nearestEven x) <= x + (1 # 2).
Proof.
  unfold nearestEven.
  pose proof (Qfloor_le x) as H1. pose proof (Qlt_floor x) as H2.
  rewrite inject_Z_plus in H2. change (inject_Z 1) with 1 in H2.
  destruct (Qcompare_spec (x - inject_Z (Qfloor x)) (1 # 2)) as [E|E|E].
  - destruct (Z.even (Qfloor x)).
    + lra.
    + rewrite inject_Z_plus. change (inject_Z 1) with 1. lra.
  - lra.
  - rewrite inject_Z_plus. change (inject_Z 1) with 1. lra.
Qed.

Lemma nearestEven_Z (x : Q) (k : Z) : x == inject_Z k -> nearestEven x = k.
Proof.
  intros E. unfold nearestEven.
  rewrite (Qfloor_comp _ _ E), Qfloor_Z.
  destruct (Qcompare_spec (x - inject_Z k) (1 # 2)) as [H|H|H];
    [lra | reflexivity | lra].
Qed.

Lemma nearestEven_comp (x y : Q) : x == y -> nearestEven x = nearestEven y.
Proof.
  intros E. unfold nearestEven. rewrite (Qfloor_comp _ _ E).
  assert (E' : x - inject_Z (Qfloor y) == y - inject_Z (Qfloor y))
    by (rewrite E; reflexivity).
  rewrite (Qcompare_comp _ _ E' _ _ (Qeq_refl (1 # 2))). reflexivity.
Qed.

Lemma nearestEven_sign (x : Q) : x <= 0 -> (nearestEven x <= 0)%Z.
Proof.
  intros Hx. pose proof (nearestEven_spec x) as [_ H].
  assert (L : inject_Z (nearestEven x) < inject_Z 1).
  { change (inject_Z 1) with 1. lra. }
  rewrite <- Zlt_Qlt in L. lia.
Qed.

Lemma quantum_normal (q : Q) :
  2 ^ (-1022) <= Qabs q -> quantum q = (mag q - 53)%Z.
Proof.
  intros H. unfold quantum.
  assert (Hq : ~ q == 0).
  { intros E. rewrite E in H. pose proof (pow2_pos (-1022)).
    change (Qabs 0) with 0 in H. lra. }
  destruct (mag_spec q Hq) as [_ M].
  assert ((-1022 < mag q)%Z).
  { apply Qpower_lt_compat_l_inv with 2; [lra | reflexivity]. }
  lia.
Qed.

Lemma nearest_error (q : Q) :
  2 ^ (-1022) <= Qabs q -> Qabs (nearest q - q) <= eps * Qabs q.
Proof.
  intros H.
  assert (Hq : ~ q == 0).
  { intros E. rewrite E in H. pose proof (pow2_pos (-1022)).
    change (Qabs 0) with 0 in H. lra. }
  unfold nearest. rewrite (quantum_normal q H).
  destruct (mag_spec q Hq) as [M _].
  set (e := (mag q - 53)%Z).
  pose proof (pow2_pos e) as Pe.
  destruct (nearestEven_spec (q / 2 ^ e)) as [N1 N2].
  set (n := inject_Z (nearestEven (q / 2 ^ e))) in *.
  assert (E1 : q == (q / 2 ^ e) * 2 ^ e) by (field; lra).
  assert (E2 : 2 ^ (mag q - 1) == 2 ^ 53 * 2 ^ (e - 1)).
  { rewrite <- Qpower_plus by discriminate.
    unfold e. replace (53 + (mag q - 53 - 1))%Z with (mag q - 1)%Z by lia.
    reflexivity. }
  pose proof (pow2_pred e) as E3.
  assert (Hb : 2 ^ e <= 2 * eps * Qabs q).
  { rewrite E2 in M. change (2 ^ 53) with (9007199254740992 # 1) in M.
    unfold eps. lra. }
  set (x := q / 2 ^ e) in *.
  assert (K1 : (n - x) * 2 ^ e <= (1 # 2) * 2 ^ e)
    by (apply Qmult_le_compat_r; lra).
  assert (K2 : - (1 # 2) * 2 ^ e <= (n - x) * 2 ^ e)
    by (apply Qmult_le_compat_r; lra).
  apply Qabs_Qle_condition. split; lra.
Qed.

Lemma Qred_inject_Z (z : Z) : Qred (inject_Z z) = inject_Z z.
Proof.
  unfold Qred, inject_Z.
  pose proof (Z.ggcd_gcd z 1) as G. pose proof (Z.ggcd_correct_divisors z 1) as D.
  destruct (Z.ggcd z 1) as [g [aa bb]]. simpl in *.
  rewrite Z.gcd_1_r in G. subst g. destruct D as [D1 D2].
  rewrite Z.mul_1_l in D1, D2. subst. reflexivity.
Qed.

Lemma fl64_finite (q : Q) :
  ~ q == 0 -> Qabs (nearest q) < 2 ^ 1024 -> fl64 q = Fin (Qred (nearest q)).
Proof.
  intros Hq H. unfold fl64.
  destruct (Qeq_bool q 0) eqn:E; [apply Qeq_bool_iff in E; contradiction|].
  destruct (Qle_bool (2 ^ 1024) (Qabs (nearest q))) eqn:E2; [|reflexivity].
  apply Qle_bool_iff in E2. lra.
Qed.

Lemma fl64_error (q : Q) :
  2 ^ (-1022) <= Qabs q -> Qabs q <= 2 ^ 1023 ->
  exists r : Q, fl64 q = Fin r /\ Qabs (r - q) <= eps * Qabs q.
Proof.
  intros H1 H2. pose proof (nearest_error q H1) as N.
  assert (Hq : ~ q == 0).
  { intros E. rewrite E in H1. pose proof (pow2_pos (-1022)).
    change (Qabs 0) with 0 in H1. lra. }
  exists (Qred (nearest q)). split.
  - apply fl64_finite; [assumption|].
    assert (T : Qabs (nearest q) <= Qabs q + eps * Qabs q).
    { pose proof (Qabs_triangle_reverse (nearest q) q). lra. }
    assert (P : 2 * 2 ^ 1023 == 2 ^ 1024) by (rewrite <- pow2_succ; reflexivity).
    pose proof (pow2_pos 1023). unfold eps in *.
    pose proof (Qabs_nonneg q). nra.
  - rewrite (Qabs_wd (Qred (nearest q) - q) (nearest q - q)); [assumption|].
    rewrite Qred_correct. reflexivity.
Qed.

Lemma fl64_near (q : Q) :
  2 ^ (-1022) <= q -> q <= 2 ^ 1023 ->
  exists r : Q, fl64 q = Fin r /\ q * (1 - eps) <= r /\ r <= q * (1 + eps).
Proof.
  intros H1 H2. pose proof (pow2_pos (-1022)).
  assert (A : Qabs q == q) by (apply Qabs_pos; lra).
  destruct (fl64_error q) as (r & Hr & E); [rewrite A; assumption..|].
  exists r. split; [assumption|]. rewrite A in E.
  apply Qabs_Qle_condition in E. lra.
Qed.

Lemma fl64_Z (q : Q) (z : Z) :
  q == inject_Z z -> (Z.abs z < 2 ^ 53)%Z -> fl64 q = Fin (inject_Z z).
Proof.
  intros E Hz.
  destruct (Z.eq_dec z 0) as [->|Hnz].
  { unfold fl64. rewrite (proj2 (Qeq_bool_iff q 0) E). reflexivity. }
  assert (Hq : ~ q == 0).
  { rewrite E. intros X. apply Hnz. unfold Qeq in X. simpl in X. lia. }
  assert (Habs : Qabs q == inject_Z (Z.abs z)).
  { rewrite (Qabs_wd _ _ E). reflexivity. }
  destruct (mag_spec q Hq) as [M1 M2].
  assert (Hm1 : (mag q <= 53)%Z).
  { assert (X : (mag q - 1 < 53)%Z); [|lia].
    apply Qpower_lt_compat_l_inv with 2; [|reflexivity].
    rewrite <- (pow2_Z 53) by lia.
    apply Qle_lt_trans with (Qabs q); [assumption|].
    rewrite Habs, <- Zlt_Qlt. assumption. }
  assert (Hm0 : (0 < mag q)%Z).
  { apply Qpower_lt_compat_l_inv with 2; [|reflexivity].
    apply Qle_lt_trans with (Qabs q); [|assumption].
    rewrite Habs. change (2 ^ 0) with (inject_Z 1). rewrite <- Zle_Qle. lia. }
  assert (Hquant : quantum q = (mag q - 53)%Z) by (unfold quantum; lia).
  set (e := (mag q - 53)%Z) in *.
  assert (Hk : q / 2 ^ e == inject_Z (z * 2 ^ (- e))).
  { rewrite inject_Z_mult, pow2_Z by lia. rewrite Qpower_opp, E.
    pose proof (pow2_pos e). field. lra. }
  assert (Hn : nearest q == inject_Z z).
  { unfold nearest. rewrite Hquant, (nearestEven_Z _ _ Hk).
    rewrite inject_Z_mult, pow2_Z by lia. rewrite Qpower_opp.
    pose proof (pow2_pos e). field. lra. }
  rewrite fl64_finite; [|assumption|].
  - rewrite (Qred_complete _ _ Hn), Qred_inject_Z. reflexivity.
  - rewrite (Qabs_wd _ _ Hn).
    apply Qlt_trans with (2 ^ 53).
    + rewrite <- (pow2_Z 53) by lia.
      change (Qabs (inject_Z z)) with (inject_Z (Z.abs z)).
      rewrite <- Zlt_Qlt. assumption.
    + apply pow2_lt. lia.
Qed.

Lemma mag_comp (q q' : Q) : ~ q == 0 -> q == q' -> mag q = mag q'.
Proof.
  intros Hq E. symmetry. destruct (mag_spec q Hq) as [M1 M2].
  apply mag_unique; rewrite <- (Qabs_wd _ _ E); assumption.
Qed.

Lemma fl64_comp (q q' : Q) : q == q' -> fl64 q = fl64 q'.
Proof.
  intros E. unfold fl64.
  destruct (Qeq_bool q 0) eqn:Z0.
  - apply Qeq_bool_iff in Z0. rewrite E in Z0.
    rewrite (proj2 (Qeq_bool_iff q' 0) Z0). reflexivity.
  - assert (Hq : ~ q == 0) by (intros X; apply Qeq_bool_iff in X; congruence).
    assert (Z1 : Qeq_bool q' 0 = false).
    { destruct (Qeq_bool q' 0) eqn:X; [|reflexivity].
      apply Qeq_bool_iff in X. rewrite <- E in X. contradiction. }
    rewrite Z1.
    assert (N : nearest q = nearest q').
    { unfold nearest, quantum. rewrite <- (mag_comp q q' Hq E).
      set (e := Z.max (mag q - 53) (-1074)).
      rewrite (nearestEven_comp (q / 2 ^ e) (q' / 2 ^ e)); [reflexivity|].
      now rewrite E. }
    rewrite N.
    assert (S : Qltb 0 q = Qltb 0 q').
    { unfold Qltb. f_equal.
      destruct (Qle_bool q 0) eqn:A, (Qle_bool q' 0) eqn:B; try reflexivity.
      - apply Qle_bool_iff in A. assert (B' : q' <= 0) by lra.
        apply Qle_bool_iff in B'. congruence.
      - apply Qle_bool_iff in B. assert (A' : q <= 0) by lra.
        apply Qle_bool_iff in A'. congruence. }
    rewrite S. reflexivity.
Qed.

Lemma pow2_nearest_sign (q : Q) : q <= 0 -> nearest q <= 0.
Proof.
  intros H. unfold nearest. pose proof (pow2_pos (quantum q)) as P.
  assert (X : q / 2 ^ quantum q <= 0).
  { apply Qle_shift_div_r; [assumption|]. lra. }
  apply nearestEven_sign in X. rewrite Zle_Qle in X.
  change (inject_Z 0) with 0 in X. nra.
Qed.

(** The rounding of a number that is not positive is not positive. *)
Lemma fl64_nonpos (q : Q) :
  q <= 0 -> fl64 q = NegInf \/ exists r : Q, fl64 q = Fin r /\ r <= 0.
Proof.
  intros H. unfold fl64. destruct (Qeq_bool q 0).
  - right. exists 0. split; [reflexivity | lra].
  - destruct (Qle_bool (2 ^ 1024) (Qabs (nearest q))).
    + left. unfold Qltb. rewrite (proj2 (Qle_bool_iff q 0) H). reflexivity.
    + right. exists (Qred (nearest q)). split; [reflexivity|].
      rewrite Qred_correct. now apply pow2_nearest_sign.
Qed.

End Rounding.

(* ------------------------------------------------------------------ *)
(** ** Binary64: the operations on ordinary magnitudes *)

(** Between [2^-50] and [2^50] a rounding is a relative error of at most
    [2^-53]. *)
Lemma fl64_ordinary (q : Q) :
  (1 # 1125899906842624) <= q -> q <= 1125899906842624 ->
  exists r : Q,
    Binary64.fl64 q = Fin r
    /\ q * (1 - Binary64.eps) <= r /\ r <= q * (1 + Binary64.eps).
Proof.
  intros H1 H2. apply fl64_near.
  - apply Qle_trans with (1 # 1125899906842624); [|assumption].
    apply Qle_trans with (2 ^ (-50)); [apply pow2_le; lia|].
    apply Qle_bool_iff. vm_compute. reflexivity.
  - apply Qle_trans with 1125899906842624; [assumption|].
    apply Qle_trans with (2 ^ 50); [|apply pow2_le; lia].
    apply Qle_bool_iff. vm_compute. reflexivity.
Qed.

Lemma div64_Fin (x y : Q) :
  ~ y == 0 -> Binary64.div (Fin x) (Fin y) = Binary64.fl64 (x / y).
Proof. intros H. cbn [Binary64.div]. now rewrite (Qeq_bool_false _ _ H). Qed.

Lemma LOOKAHEAD_value :
  Scheduler64.LOOKAHEAD = Fin (3602879701896397 # 36028797018963968).
Proof. vm_compute. reflexivity. Qed.

(** The counter of the [for] loop stays exact. *)
Lemma counter64 (i : Z) :
  (0 <= i < 2 ^ 52)%Z -> Binary64.add (of_Z i) (Fin 1) = of_Z (i + 1).
Proof.
  intros H. unfold of_Z. cbn [Binary64.add]. apply fl64_Z.
  - rewrite inject_Z_plus. reflexivity.
  - lia.
Qed.

(** The end of the lookahead window, [currentTime + 0.1]. *)
Lemma window64 (c : Q) :
  0 <= c <= CLOCK_MAX ->
  exists w : Q,
    Binary64.add (Fin c) Scheduler64.LOOKAHEAD = Fin w
    /\ c + LOOKAHEAD - TIME_EPS <= w /\ w <= c + LOOKAHEAD + TIME_EPS.
Proof.
  unfold CLOCK_MAX, LOOKAHEAD, TIME_EPS. intros Hc.
  rewrite LOOKAHEAD_value. cbn [Binary64.add].
  destruct (fl64_ordinary (c + (3602879701896397 # 36028797018963968)))
    as (w & Hw & W1 & W2); [lra | lra |].
  exists w. split; [assumption|]. unfold Binary64.eps in *. lra.
Qed.

(** One step of the tempo: [nextTime + 60 / bpm]. *)
Lemma duration64 (b : Q) :
  20 <= b <= 300 ->
  exists d : Q,
    Binary64.div (Fin 60) (Fin b) = Fin d
    /\ 60 / b * (1 - Binary64.eps) <= d /\ d <= 60 / b * (1 + Binary64.eps).
Proof.
  intros Hb. rewrite div64_Fin by lra.
  assert (H1 : 1 # 5 <= 60 / b) by (apply Qle_shift_div_l; lra).
  assert (H2 : 60 / b <= 3) by (apply Qle_shift_div_r; lra).
  apply fl64_ordinary; lra.
Qed.

(* ------------------------------------------------------------------ *)
(** ** One tick of the scheduler *)


Lemma scheduleLoop_eq (fuel : nat) (now s d t : number) :
  scheduleLoop fuel now s d t =
  if lt t (add now (Fin LOOKAHEAD)) then
    match fuel with
    | O => None
    | S fuel' =>
        match beatClicks fuel' s t d with
        | Some cs =>
            match scheduleLoop fuel' now s d (add t d) with
            | Some (t', rest) => Some (t', cs ++ rest)
            | None => None
            end
        | None => None
        end
    end
  else Some (t, []).
Proof. destruct fuel; reflexivity. Qed.

Section Tick.

Variables (s : Z) (d : Q).
Hypothesis s_pos : (1 <= s)%Z.
Hypothesis d_pos : 0 < d.





End Tick.

(* ------------------------------------------------------------------ *)
(** ** Order of the clicks of a tick *)

Lemma same_refl (a : number) : a =n= a.
Proof. destruct a; simpl; auto. reflexivity. Qed.

Lemma same_sym (a b : number) : a =n= b -> b =n= a.
Proof. destruct a, b; simpl; auto. intros H; now symmetry. Qed.

Lemma same_trans (a b c : number) : a =n= b -> b =n= c -> a =n= c.
Proof.
  destruct a, b, c; simpl; auto; try contradiction.
  intros H1 H2. now rewrite H1.
Qed.

Lemma StronglySorted_app {A : Type} (R : A -> A -> Prop) (l1 l2 : list A) :
  StronglySorted R l1 -> StronglySorted R l2 ->
  (forall a b, In a l1 -> In b l2 -> R a b) ->
  StronglySorted R (l1 ++ l2).
Proof.
  induction l1 as [|x l1 IH]; intros H1 H2 Hcross; simpl; [assumption|].
  inversion H1 as [|? ? Hs Hall]; subst. constructor.
  - apply IH; auto. intros a b Ha Hb. apply Hcross; simpl; auto.
  - apply Forall_app. split; [assumption|].
    apply Forall_forall. intros b Hb. apply Hcross; simpl; auto.
Qed.

Lemma StronglySorted_map_seq {A : Type} (R : A -> A -> Prop) (f : nat -> A) :
  forall k i,
    (forall a b, (i <= a)%nat -> (a < b)%nat -> (b < i + k)%nat -> R (f a) (f b)) ->
    StronglySorted R (map f (seq i k)).
Proof.
  induction k as [|k IH]; intros i H; simpl; constructor.
  - apply IH. intros a b Ha Hab Hb. apply H; lia.
  - apply Forall_forall. intros y Hy. apply in_map_iff in Hy.
    destruct Hy as (b & <- & Hb). apply in_seq in Hb. apply H; lia.
Qed.


Lemma timeIn_before (lo mid hi : Q) (a b : click) :
  timeIn lo mid a -> timeIn mid hi b -> before a b.
Proof.
  intros (x & Hx & _ & Hx2) (y & Hy & Hy1 & _). unfold before.
  rewrite Hx, Hy. simpl. apply Qltb_true. lra.
Qed.

Lemma timeIn_weaken (lo hi lo' hi' : Q) (c : click) :
  lo' <= lo -> hi <= hi' -> timeIn lo hi c -> timeIn lo' hi' c.
Proof. intros H1 H2 (q & Hq & Hl & Hh). exists q. repeat split; auto; lra. Qed.

Section Beats.

Variables (s : Z) (d : Q).
Hypothesis s_pos : (1 <= s)%Z.
Hypothesis d_pos : 0 < d.

(** The fraction [i / s] of a beat, for [0 < i < s]. *)
Lemma fraction_bounds (i : nat) :
  (1 <= i)%nat -> (i < Z.to_nat s)%nat ->
  0 < (inject_Z (Z.of_nat i) / inject_Z s) * d
  /\ (inject_Z (Z.of_nat i) / inject_Z s) * d < d.
Proof.
  intros H1 H2.
  assert (Hs : 0 < inject_Z s).
  { change 0 with (inject_Z 0). rewrite <- Zlt_Qlt. lia. }
  assert (Hi : 0 < inject_Z (Z.of_nat i)).
  { change 0 with (inject_Z 0). rewrite <- Zlt_Qlt. lia. }
  assert (His : inject_Z (Z.of_nat i) < inject_Z s).
  { rewrite <- Zlt_Qlt. lia. }
  set (r := inject_Z (Z.of_nat i) / inject_Z s).
  assert (Hr0 : 0 < r).
  { unfold r. apply Qlt_shift_div_l; [assumption | lra]. }
  assert (Hr1 : r < 1).
  { unfold r. apply Qlt_shift_div_r; [assumption | lra]. }
  split; nra.
Qed.


Lemma subSpec_strict (t : Q) :
  Forall (fun c => exists q, time c = Fin q /\ t < q /\ q < t + d /\ main c = false)
         (subSpec s t d).
Proof.
  apply Forall_forall. intros c Hc. unfold subSpec in Hc.
  apply in_map_iff in Hc. destruct Hc as (i & <- & Hi). apply in_seq in Hi.
  destruct (fraction_bounds i) as [H0 H1]; [lia | lia |].
  eexists. split; [reflexivity|]. simpl. repeat split; lra.
Qed.






Lemma iterations_beatSpec (t : Q) : filter main (beatSpec s t d) = [Click (Fin t) true].
Proof.
  unfold beatSpec. simpl. f_equal.
  pose proof (subSpec_strict t) as H. induction H as [|c l Hc _ IH]; [reflexivity|].
  destruct Hc as (q & _ & _ & _ & Hm). simpl. now rewrite Hm.
Qed.

Lemma iterations_beatsSpec :
  forall (j : nat) (t : Q), iterations (beatsSpec j s t d) = j.
Proof.
  unfold iterations. induction j as [|j IH]; intros t; [reflexivity|].
  cbn [beatsSpec]. rewrite filter_app, iterations_beatSpec, length_app, IH.
  reflexivity.
Qed.

End Beats.

(* ------------------------------------------------------------------ *)
(** ** What a tick plays *)


(* ------------------------------------------------------------------ *)
(** ** A run of ticks and tempo changes *)

Lemma mains_pair (b : number) (cs : list click) :
  mains (map (pair b) cs) = map (pair b) (filter main cs).
Proof.
  unfold mains. induction cs as [|c cs IH]; [reflexivity|].
  simpl. destruct (main c); simpl; now rewrite IH.
Qed.







(* ------------------------------------------------------------------ *)
(** ** Binary64: one tick of the scheduler *)

Section Tick64.

Variables (b : Q) (s : Z) (d : Q).
Hypothesis b_range : 20 <= b <= 300.
Hypothesis s_range : (1 <= s <= SUB_MAX)%Z.
Hypothesis d_near :
  60 / b * (1 - Binary64.eps) <= d /\ d <= 60 / b * (1 + Binary64.eps).

Lemma beat_bounds : 1 # 5 <= 60 / b /\ 60 / b <= 3.
Proof.
  split; [apply Qle_shift_div_l | apply Qle_shift_div_r]; lra.
Qed.

Lemma next64 (t : Q) :
  0 <= t <= CLOCK_MAX + 4 ->
  exists t1 : Q,
    Binary64.add (Fin t) (Fin d) = Fin t1
    /\ t + 60 / b - TIME_EPS <= t1 /\ t1 <= t + 60 / b + TIME_EPS.
Proof.
  unfold CLOCK_MAX, TIME_EPS. intros Ht. destruct beat_bounds as [B1 B2].
  destruct d_near as [D1 D2]. unfold Binary64.eps in *.
  cbn [Binary64.add].
  destruct (fl64_ordinary (t + d)) as (t1 & E & T1 & T2); [lra | lra |].
  exists t1. split; [assumption|]. unfold Binary64.eps in *. lra.
Qed.

(** The fraction [i / s] of a beat, as a multiple of the [s]-th of it. *)
Lemma fraction_of_beat (i : Z) :
  (inject_Z i / inject_Z s) * (60 / b) == inject_Z i * (60 / b / inject_Z s).
Proof.
  assert (Hs : 0 < inject_Z s).
  { change 0 with (inject_Z 0). rewrite <- Zlt_Qlt. lia. }
  field. split; lra.
Qed.

Lemma part_bounds : 1 # 5120 <= 60 / b / inject_Z s /\ 60 / b / inject_Z s <= 3.
Proof.
  destruct beat_bounds as [B1 B2].
  assert (Hs1 : 1 <= inject_Z s).
  { change 1 with (inject_Z 1). rewrite <- Zle_Qle. lia. }
  assert (Hs2 : inject_Z s <= 1024).
  { change 1024 with (inject_Z 1024). rewrite <- Zle_Qle.
    unfold SUB_MAX in s_range. lia. }
  split.
  - apply Qle_shift_div_l; lra.
  - apply Qle_shift_div_r; lra.
Qed.

Lemma sub64 (t : Q) (i : Z) :
  0 <= t <= CLOCK_MAX + 4 -> (1 <= i < s)%Z ->
  exists q : Q,
    Binary64.add (Fin t)
      (Binary64.mul (Binary64.div (of_Z i) (of_Z s)) (Fin d)) = Fin q
    /\ t + (inject_Z i / inject_Z s) * (60 / b) - TIME_EPS <= q
    /\ q <= t + (inject_Z i / inject_Z s) * (60 / b) + TIME_EPS.
Proof.
  unfold CLOCK_MAX, TIME_EPS. intros Ht Hi.
  destruct beat_bounds as [B1 B2]. destruct d_near as [D1 D2].
  assert (Hs1 : 1 <= inject_Z s).
  { change 1 with (inject_Z 1). rewrite <- Zle_Qle. lia. }
  assert (Hs2 : inject_Z s <= 1024).
  { change 1024 with (inject_Z 1024). rewrite <- Zle_Qle.
    unfold SUB_MAX in s_range. lia. }
  assert (Hi1 : 1 <= inject_Z i).
  { change 1 with (inject_Z 1). rewrite <- Zle_Qle. lia. }
  assert (Hi2 : inject_Z i <= inject_Z s) by (rewrite <- Zle_Qle; lia).
  set (r := inject_Z i / inject_Z s).
  assert (R1 : 1 # 1024 <= r) by (unfold r; apply Qle_shift_div_l; lra).
  assert (R2 : r <= 1) by (unfold r; apply Qle_shift_div_r; lra).
  unfold of_Z. rewrite div64_Fin by lra. fold r.
  destruct (fl64_ordinary r) as (f & Ef & F1 & F2); [lra | lra |].
  rewrite Ef. cbn [Binary64.mul].
  set (x := r * (60 / b)).
  assert (X1 : 1 # 5120 <= x) by (unfold x; nra).
  assert (X2 : x <= 3) by (unfold x; nra).
  unfold Binary64.eps in *.
  assert (P1 : x * ((1 - (1 # 9007199254740992)) * (1 - (1 # 9007199254740992)))
               <= f * d).
  { assert (E : x * ((1 - (1 # 9007199254740992)) * (1 - (1 # 9007199254740992)))
                == r * (1 - (1 # 9007199254740992))
                   * (60 / b * (1 - (1 # 9007199254740992))))
      by (unfold x; ring).
    rewrite E. apply Qmult_le_compat_nonneg; split; lra. }
  assert (P2 : f * d
               <= x * ((1 + (1 # 9007199254740992)) * (1 + (1 # 9007199254740992)))).
  { assert (E : x * ((1 + (1 # 9007199254740992)) * (1 + (1 # 9007199254740992)))
                == r * (1 + (1 # 9007199254740992))
                   * (60 / b * (1 + (1 # 9007199254740992))))
      by (unfold x; ring).
    rewrite E. apply Qmult_le_compat_nonneg; split; lra. }
  destruct (fl64_ordinary (f * d)) as (o & Eo & O1 & O2); [lra | lra |].
  rewrite Eo. cbn [Binary64.add]. unfold Binary64.eps in *.
  destruct (fl64_ordinary (t + o)) as (q & Eq & Q1 & Q2); [lra | lra |].
  exists q. split; [assumption|]. unfold Binary64.eps in *. lra.
Qed.


Lemma subTicks64_eq (fuel : nat) (i s0 t d0 : number) :
  Scheduler64.subTicks fuel i s0 t d0 =
  if lt i s0 then
    match fuel with
    | O => None
    | S fuel' =>
        match Scheduler64.subTicks fuel' (Binary64.add i (Fin 1)) s0 t d0 with
        | Some cs =>
            Some (Click (Binary64.add t (Binary64.mul (Binary64.div i s0) d0))
                        false :: cs)
        | None => None
        end
    end
  else Some [].
Proof. destruct fuel; reflexivity. Qed.

Lemma scheduleLoop64_eq (fuel : nat) (now s0 d0 t : number) :
  Scheduler64.scheduleLoop fuel now s0 d0 t =
  if lt t (Binary64.add now Scheduler64.LOOKAHEAD) then
    match fuel with
    | O => None
    | S fuel' =>
        match Scheduler64.beatClicks fuel' s0 t d0 with
        | Some cs =>
            match Scheduler64.scheduleLoop fuel' now s0 d0 (Binary64.add t d0) with
            | Some (t', rest) => Some (t', cs ++ rest)
            | None => None
            end
        | None => None
        end
    end
  else Some (t, []).
Proof. destruct fuel; reflexivity. Qed.

Lemma subTicks64_seq (t : Q) :
  forall (k i fuel : nat),
    (i + k = Z.to_nat s)%nat -> (k <= fuel)%nat ->
    Scheduler64.subTicks fuel (of_Z (Z.of_nat i)) (of_Z s) (Fin t) (Fin d) =
    Some (map (fun j : nat =>
                 Click (Binary64.add (Fin t)
                          (Binary64.mul
                             (Binary64.div (of_Z (Z.of_nat j)) (of_Z s)) (Fin d)))
                       false)
              (seq i k)).
Proof.
  unfold SUB_MAX in s_range.
  induction k as [|k IH]; intros i fuel Hik Hfuel; rewrite subTicks64_eq.
  - assert (E : lt (of_Z (Z.of_nat i)) (of_Z s) = false).
    { rewrite lt_of_Z. apply Z.ltb_ge. lia. }
    now rewrite E.
  - assert (E : lt (of_Z (Z.of_nat i)) (of_Z s) = true).
    { rewrite lt_of_Z. apply Z.ltb_lt. lia. }
    rewrite E. destruct fuel as [|fuel]; [lia|].
    rewrite counter64 by lia.
    replace (Z.of_nat i + 1)%Z with (Z.of_nat (S i)) by lia.
    rewrite (IH (S i) fuel) by lia. reflexivity.
Qed.

Lemma beatClicks64_spec (t : Q) (fuel : nat) :
  (Z.to_nat s <= S fuel)%nat ->
  Scheduler64.beatClicks fuel (of_Z s) (Fin t) (Fin d)
  = Some (Scheduler64.beatSpec s t (Fin d)).
Proof.
  intros Hfuel.
  unfold Scheduler64.beatClicks, Scheduler64.beatSpec, Scheduler64.subSpec, gt.
  change (Fin 1) with (of_Z 1). rewrite lt_of_Z.
  destruct (Z.ltb_spec 1 s) as [H|H].
  - change 1%Z with (Z.of_nat 1) at 1.
    rewrite (subTicks64_seq t (Z.to_nat s - 1) 1 fuel) by lia. reflexivity.
  - replace (Z.to_nat s - 1)%nat with 0%nat by lia. reflexivity.
Qed.

(** The sub events of a beat are, within a nanosecond, where the document
    puts them, after the main beat and before the next one. *)
Lemma subSpec64_strict (t t1 : Q) :
  0 <= t <= CLOCK_MAX + 4 ->
  Binary64.add (Fin t) (Fin d) = Fin t1 ->
  Forall (fun c => exists q, time c = Fin q /\ t < q /\ q < t1 /\ main c = false)
         (Scheduler64.subSpec s t (Fin d)).
Proof.
  intros Ht Ht1. destruct (next64 t Ht) as (t1' & E & N1 & N2).
  rewrite Ht1 in E. injection E as <-.
  apply Forall_forall. intros c Hc. unfold Scheduler64.subSpec in Hc.
  apply in_map_iff in Hc. destruct Hc as (i & <- & Hi). apply in_seq in Hi.
  destruct (sub64 t (Z.of_nat i) Ht) as (q & Eq & Q1 & Q2); [lia|].
  exists q. cbn [time main]. split; [assumption|].
  rewrite fraction_of_beat in Q1, Q2.
  destruct part_bounds as [P1 P2]. set (h := 60 / b / inject_Z s) in *.
  assert (Hi1 : 1 <= inject_Z (Z.of_nat i)).
  { change 1 with (inject_Z 1). rewrite <- Zle_Qle. lia. }
  assert (Hi2 : inject_Z (Z.of_nat i) + 1 <= inject_Z s).
  { change 1 with (inject_Z 1). rewrite <- inject_Z_plus, <- Zle_Qle. lia. }
  assert (Hs : 0 < inject_Z s) by lra.
  assert (Hh : inject_Z s * h == 60 / b) by (unfold h; field; lra).
  unfold TIME_EPS in *. repeat split; [nra | nra].
Qed.

Lemma subSpec64_sorted (t : Q) :
  0 <= t <= CLOCK_MAX + 4 ->
  StronglySorted before (Scheduler64.subSpec s t (Fin d)).
Proof.
  intros Ht. apply StronglySorted_map_seq. intros x y Hx Hxy Hy.
  destruct (sub64 t (Z.of_nat x) Ht) as (qx & Ex & X1 & X2); [lia|].
  destruct (sub64 t (Z.of_nat y) Ht) as (qy & Ey & Y1 & Y2); [lia|].
  unfold before. cbn [time]. rewrite Ex, Ey. cbn [lt]. apply Qltb_true.
  rewrite fraction_of_beat in X1, X2, Y1, Y2.
  destruct part_bounds as [P1 P2]. set (h := 60 / b / inject_Z s) in *.
  assert (Hxy' : inject_Z (Z.of_nat x) + 1 <= inject_Z (Z.of_nat y)).
  { change 1 with (inject_Z 1). rewrite <- inject_Z_plus, <- Zle_Qle. lia. }
  unfold TIME_EPS in *. nra.
Qed.

Lemma beatSpec64_sorted (t t1 : Q) :
  0 <= t <= CLOCK_MAX + 4 ->
  Binary64.add (Fin t) (Fin d) = Fin t1 ->
  StronglySorted before (Scheduler64.beatSpec s t (Fin d)).
Proof.
  intros Ht Ht1. constructor; [now apply subSpec64_sorted|].
  eapply Forall_impl; [|exact (subSpec64_strict t t1 Ht Ht1)].
  intros c (q & Hq & Hlo & _). unfold before. cbn [time]. rewrite Hq.
  cbn [lt]. now apply Qltb_true.
Qed.

Lemma beatSpec64_timeIn (t t1 : Q) :
  0 <= t <= CLOCK_MAX + 4 ->
  Binary64.add (Fin t) (Fin d) = Fin t1 ->
  Forall (timeIn t t1) (Scheduler64.beatSpec s t (Fin d)).
Proof.
  intros Ht Ht1. constructor.
  - exists t. cbn [time]. split; [reflexivity|]. split; [lra|].
    destruct (next64 t Ht) as (t1' & E & N1 & N2).
    rewrite Ht1 in E. injection E as <-.
    destruct beat_bounds. unfold TIME_EPS in *. lra.
  - eapply Forall_impl; [|exact (subSpec64_strict t t1 Ht Ht1)].
    intros c (q & Hq & Hlo & Hhi & _). exists q. repeat split; auto; lra.
Qed.

Lemma mains_beatSpec64 (t : Q) (d0 : number) :
  filter main (Scheduler64.beatSpec s t d0) = [Click (Fin t) true].
Proof.
  unfold Scheduler64.beatSpec, Scheduler64.subSpec. cbn [filter main]. f_equal.
  induction (seq 1 (Z.to_nat s - 1)) as [|i l IH]; [reflexivity|].
  cbn [map filter main]. exact IH.
Qed.

Lemma subSpec64_close (t : Q) :
  0 <= t <= CLOCK_MAX + 4 ->
  closeTo TIME_EPS (Scheduler64.subSpec s t (Fin d)) (subSpec s t (60 / b)).
Proof.
  intros Ht. unfold closeTo, Scheduler64.subSpec, subSpec.
  assert (G : forall l : list nat,
             Forall (fun i => (1 <= i < Z.to_nat s)%nat) l ->
             Forall2
               (fun k k0 : click =>
                  main k = main k0
                  /\ exists q q0 : Q,
                       time k = Fin q /\ time k0 = Fin q0
                       /\ Qabs (q - q0) <= TIME_EPS)
               (map (fun i : nat =>
                       Click (Binary64.add (Fin t)
                                (Binary64.mul
                                   (Binary64.div (of_Z (Z.of_nat i)) (of_Z s))
                                   (Fin d))) false) l)
               (map (fun i : nat =>
                       Click (Fin (t + inject_Z (Z.of_nat i) / inject_Z s * (60 / b)))
                             false) l)).
  { induction l as [|i l IH]; intros Hl; [constructor|].
    inversion Hl as [|? ? Hi Hl']; subst. cbn [map]. constructor; [|now apply IH].
    split; [reflexivity|].
    destruct (sub64 t (Z.of_nat i) Ht) as (q & Eq & Q1 & Q2); [lia|].
    exists q. eexists. cbn [time]. split; [exact Eq|]. split; [reflexivity|].
    apply Qabs_Qle_condition. lra. }
  apply G. apply Forall_forall. intros i Hi. apply in_seq in Hi. lia.
Qed.

(** The clicks of the beats of a tick, and where they are. *)
Lemma ticks64_timeIn :
  forall (ts : list Q) (t t' : Q),
    mainChain (Fin d) ts t t' ->
    Forall (fun u => 0 <= u <= CLOCK_MAX + 4) ts ->
    t <= t'
    /\ Forall (timeIn t t')
              (flat_map (fun u => Scheduler64.beatSpec s u (Fin d)) ts).
Proof.
  induction ts as [|u ts IH]; intros t t' Hc Hr.
  - cbn [mainChain] in Hc. subst. split; [lra | constructor].
  - destruct Hc as (-> & t1 & E & Hc). inversion Hr as [|? ? Hu Hr']; subst.
    destruct (IH t1 t' Hc Hr') as [Hle Hin].
    pose proof (beatSpec64_timeIn t t1 Hu E) as Hb.
    assert (Hlt : t < t1).
    { destruct (next64 t Hu) as (t1' & E' & N1 & N2).
      rewrite E in E'. injection E' as <-.
      destruct beat_bounds. unfold TIME_EPS in *. lra. }
    split; [lra|]. cbn [flat_map]. apply Forall_app. split.
    + eapply Forall_impl; [|exact Hb]. intros c. apply timeIn_weaken; lra.
    + eapply Forall_impl; [|exact Hin]. intros c. apply timeIn_weaken; lra.
Qed.

Lemma ticks64_sorted :
  forall (ts : list Q) (t t' : Q),
    mainChain (Fin d) ts t t' ->
    Forall (fun u => 0 <= u <= CLOCK_MAX + 4) ts ->
    StronglySorted before
      (flat_map (fun u => Scheduler64.beatSpec s u (Fin d)) ts).
Proof.
  induction ts as [|u ts IH]; intros t t' Hc Hr; [constructor|].
  destruct Hc as (-> & t1 & E & Hc). inversion Hr as [|? ? Hu Hr']; subst.
  cbn [flat_map]. apply StronglySorted_app.
  - exact (beatSpec64_sorted t t1 Hu E).
  - exact (IH t1 t' Hc Hr').
  - intros x y Hx Hy.
    pose proof (beatSpec64_timeIn t t1 Hu E) as H1.
    destruct (ticks64_timeIn ts t1 t' Hc Hr') as [_ H2].
    rewrite Forall_forall in H1, H2.
    exact (timeIn_before _ _ _ _ _ (H1 x Hx) (H2 y Hy)).
Qed.

Lemma mains_ticks64 (d0 : number) (ts : list Q) :
  filter main (flat_map (fun u => Scheduler64.beatSpec s u d0) ts)
  = map (fun u => Click (Fin u) true) ts.
Proof.
  induction ts as [|u ts IH]; [reflexivity|].
  cbn [flat_map map]. rewrite filter_app, mains_beatSpec64, IH. reflexivity.
Qed.

(** The loop of a tick: it ends, and its main beats form a chain. *)
Lemma scheduleLoop64_beats (c w : Q) :
  Binary64.add (Fin c) Scheduler64.LOOKAHEAD = Fin w ->
  w <= CLOCK_MAX + (1 # 2) ->
  forall (k : nat) (t : Q),
    0 <= t <= CLOCK_MAX + 4 ->
    w - t <= inject_Z (Z.of_nat k) * (1 # 8) ->
    exists (ts : list Q) (t' : Q),
      mainChain (Fin d) ts t t'
      /\ Forall (fun u => 0 <= u /\ u < w) ts
      /\ w <= t' /\ 0 <= t' <= CLOCK_MAX + 4
      /\ (ts = []
          \/ (inject_Z (Z.of_nat (length ts)) - 1) * (60 / b - TIME_EPS) < w - t)
      /\ forall fuel : nat,
           (k + Z.to_nat s <= fuel)%nat ->
           Scheduler64.scheduleLoop fuel (Fin c) (of_Z s) (Fin d) (Fin t)
           = Some (Fin t',
                   flat_map (fun u => Scheduler64.beatSpec s u (Fin d)) ts).
Proof.
  intros Hw Hwmax. destruct beat_bounds as [B1 B2].
  induction k as [|k IH]; intros t Ht Hk;
    destruct (Qltb t w) eqn:E.
  - apply Qltb_true in E. change (inject_Z (Z.of_nat 0)) with 0 in Hk. lra.
  - exists [], t. pose proof (proj1 (Qltb_false _ _) E).
    split; [reflexivity|]. split; [constructor|]. split; [lra|].
    split; [lra|]. split; [now left|].
    intros fuel _. rewrite scheduleLoop64_eq, Hw. cbn [lt]. now rewrite E.
  - pose proof (proj1 (Qltb_true _ _) E) as Hlt.
    rewrite Nat2Z.inj_succ, <- Z.add_1_r, inject_Z_plus in Hk.
    change (inject_Z 1) with 1 in Hk.
    destruct (next64 t Ht) as (t1 & E1 & N1 & N2).
    unfold CLOCK_MAX, TIME_EPS in *.
    destruct (IH t1) as (ts & t' & Hc & Hr & Hlim & Hmax & Hcount & Hrun);
      [lra | lra |].
    exists (t :: ts), t'.
    split; [split; [reflexivity | exists t1; split; assumption]|].
    split; [constructor; [lra | assumption]|].
    split; [assumption|]. split; [assumption|]. split.
    + right. cbn [length]. rewrite Nat2Z.inj_succ, <- Z.add_1_r, inject_Z_plus.
      change (inject_Z 1) with 1.
      destruct Hcount as [-> | Hcount].
      * change (inject_Z (Z.of_nat (length (@nil Q)))) with 0. lra.
      * set (K := inject_Z (Z.of_nat (length ts))) in *.
        set (g := 60 / b - (1 # 1073741824)) in *.
        assert (G : g <= t1 - t) by (unfold g; lra). nra.
    + intros fuel Hfuel. rewrite scheduleLoop64_eq, Hw. cbn [lt]. rewrite E.
      destruct fuel as [|fuel]; [lia|].
      rewrite beatClicks64_spec by lia. rewrite E1, Hrun by lia. reflexivity.
  - exists [], t. pose proof (proj1 (Qltb_false _ _) E).
    split; [reflexivity|]. split; [constructor|]. split; [lra|].
    split; [lra|]. split; [now left|].
    intros fuel _. rewrite scheduleLoop64_eq, Hw. cbn [lt]. now rewrite E.
Qed.

End Tick64.

(* ------------------------------------------------------------------ *)
(** ** Binary64: what a tick plays *)

Lemma window_steps (x : Q) :
  exists k : nat, x <= inject_Z (Z.of_nat k) * (1 # 8).
Proof.
  exists (Z.to_nat (Qceiling (x * 8))).
  assert (Hx : x * 8 <= inject_Z (Z.of_nat (Z.to_nat (Qceiling (x * 8))))).
  { apply Qle_trans with (inject_Z (Qceiling (x * 8))); [apply Qle_ceiling|].
    rewrite <- Zle_Qle. lia. }
  lra.
Qed.

(** With a tempo in [20, 300], an integer subdivision up to [SUB_MAX] and
    clock values up to [CLOCK_MAX], [_schedule] returns.  Its main beats
    form a chain from the committed [nextTime] to the new one, every beat
    but the new [nextTime] being inside the window. *)
Lemma tick64_spec (m : Metronome) (b : Q) (s : Z) (t c : Q) :
  bpm m = Fin b -> 20 <= b <= 300 ->
  subdivision m = of_Z s -> (1 <= s <= SUB_MAX)%Z ->
  nextTime m = Fin t -> 0 <= t <= CLOCK_MAX + 4 -> 0 <= c <= CLOCK_MAX ->
  exists (d w : Q) (ts : list Q) (t' : Q),
    Binary64.div (Fin 60) (Fin b) = Fin d
    /\ (60 / b * (1 - Binary64.eps) <= d /\ d <= 60 / b * (1 + Binary64.eps))
    /\ Binary64.add (Fin c) Scheduler64.LOOKAHEAD = Fin w
    /\ (c + LOOKAHEAD - TIME_EPS <= w /\ w <= c + LOOKAHEAD + TIME_EPS)
    /\ mainChain (Fin d) ts t t'
    /\ Forall (fun u => 0 <= u /\ u < w) ts
    /\ w <= t' /\ 0 <= t' <= CLOCK_MAX + 4
    /\ (ts = []
        \/ (inject_Z (Z.of_nat (length ts)) - 1) * (60 / b - TIME_EPS) < w - t)
    /\ exists fuel0 : nat, forall fuel : nat,
         (fuel0 <= fuel)%nat ->
         Scheduler64._schedule fuel (Fin c) m
         = Some ({| bpm := bpm m; subdivision := subdivision m;
                    isRunning := isRunning m; nextTime := Fin t' |},
                 flat_map (fun u => Scheduler64.beatSpec s u (Fin d)) ts).
Proof.
  intros Hb Hrange Hs Hs1 Ht Htr Hc.
  destruct (duration64 b Hrange) as (d & Ed & Hd).
  destruct (window64 c Hc) as (w & Ew & W1 & W2).
  destruct (window_steps (w - t)) as (k & Hk).
  assert (Hwmax : w <= CLOCK_MAX + (1 # 2)).
  { unfold CLOCK_MAX, LOOKAHEAD, TIME_EPS in *. lra. }
  destruct (scheduleLoop64_beats b s d Hrange Hs1 Hd c w Ew Hwmax k t Htr Hk)
    as (ts & t' & Hchain & Hin & Hlim & Hmax & Hcount & Hrun).
  exists d, w, ts, t'. repeat split; try assumption; try tauto.
  exists (k + Z.to_nat s)%nat. intros fuel Hfuel.
  unfold Scheduler64._schedule, Scheduler64.beatDuration. rewrite Hb, Hs, Ht, Ed.
  now rewrite Hrun.
Qed.

(* ------------------------------------------------------------------ *)
(** ** Binary64: a run of ticks and tempo changes *)

Lemma chain64_app (l1 l2 : list (number * click)) (e1 e2 : number) :
  chain64 l1 e1 -> chain64 l2 e2 -> e1 = front l2 e2 -> chain64 (l1 ++ l2) e2.
Proof.
  induction l1 as [|[b c] l1 IH]; simpl; intros H1 H2 He; [assumption|].
  destruct H1 as [Hh Ht]. split; [|now apply IH].
  destruct l1 as [|[b' c'] l1]; simpl in *; [|assumption].
  now rewrite <- He.
Qed.

Lemma chain64_mains (b d : Q) :
  Binary64.div (Fin 60) (Fin b) = Fin d ->
  forall (ts : list Q) (t t' : Q),
    mainChain (Fin d) ts t t' ->
    chain64 (map (pair (Fin b)) (map (fun u => Click (Fin u) true) ts)) (Fin t')
    /\ front (map (pair (Fin b)) (map (fun u => Click (Fin u) true) ts)) (Fin t')
       = Fin t.
Proof.
  intros Ed. induction ts as [|u ts IH]; intros t t' Hc.
  - cbn [mainChain] in Hc. subst. split; [exact I | reflexivity].
  - destruct Hc as (-> & t1 & E & Hc). destruct (IH t1 t' Hc) as [IH1 IH2].
    cbn [map chain64 front time fst snd]. rewrite Ed, E.
    split; [split; [now rewrite IH2 | assumption] | reflexivity].
Qed.

Lemma setSubdivision_bounded (n : number) (m : Metronome) :
  gt n (of_Z SUB_MAX) = false ->
  exists s : Z,
    (1 <= s <= SUB_MAX)%Z /\ subdivision (setSubdivision n m) = of_Z s.
Proof.
  unfold SUB_MAX. intros Hn. unfold setSubdivision. cbn [subdivision].
  assert (Hz : forall z : Z,
             (z <= 1024)%Z ->
             exists s : Z, (1 <= s <= 1024)%Z
                           /\ JS.max (Fin 1) (of_Z z) = of_Z s).
  { intros z Hz. change (Fin 1) with (of_Z 1). rewrite max_of_Z.
    exists (Z.max 1 z). split; [lia | reflexivity]. }
  destruct n as [| |q|]; unfold JS.or; cbn [truthy floor].
  - apply (Hz 1%Z). lia.
  - exists 1%Z. split; [lia | reflexivity].
  - assert (Hq : q <= 1024).
    { unfold gt, of_Z in Hn. cbn [lt] in Hn. apply Qltb_false in Hn. exact Hn. }
    destruct (negb (Qeq_bool q 0)); cbn [floor].
    + apply Hz. assert (X : (Qfloor q < 1024 + 1)%Z); [|lia].
      rewrite Zlt_Qlt. apply Qle_lt_trans with q; [apply Qfloor_le|].
      rewrite inject_Z_plus. change (inject_Z 1024) with 1024.
      change (inject_Z 1) with 1. lra.
    + apply (Hz 1%Z). lia.
  - discriminate Hn.
Qed.

Lemma committed64_tick (log0 : list (number * click)) (b : Q) (s : Z)
    (d : Q) (ts : list Q) (t t' : Q) :
  20 <= b <= 300 -> (1 <= s <= SUB_MAX)%Z ->
  Binary64.div (Fin 60) (Fin b) = Fin d ->
  60 / b * (1 - Binary64.eps) <= d /\ d <= 60 / b * (1 + Binary64.eps) ->
  0 <= t ->
  mainChain (Fin d) ts t t' ->
  Forall (fun u => 0 <= u <= CLOCK_MAX + 4) ts ->
  committed64 log0 t ->
  committed64
    (log0 ++ map (pair (Fin b))
                 (flat_map (fun u => Scheduler64.beatSpec s u (Fin d)) ts)) t'.
Proof.
  intros Hb Hs Ed Hd Ht0 Hchain Hr (Hsorted & Hbound & Htags & Hc0).
  set (new := flat_map (fun u => Scheduler64.beatSpec s u (Fin d)) ts).
  destruct (ticks64_timeIn b s d Hb Hs Hd ts t t' Hchain Hr) as [Hle Hnew].
  fold new in Hnew.
  assert (Esnd : map snd (log0 ++ map (pair (Fin b)) new) = map snd log0 ++ new).
  { rewrite map_app, map_map. simpl. now rewrite map_id. }
  unfold committed64. rewrite Esnd. split; [|split; [|split]].
  - apply StronglySorted_app;
      [assumption | exact (ticks64_sorted b s d Hb Hs Hd ts t t' Hchain Hr) |].
    intros x y Hx Hy. rewrite Forall_forall in Hbound, Hnew.
    destruct (Hbound x Hx) as (qx & Ex & _ & Hqx).
    destruct (Hnew y Hy) as (qy & Ey & Hqy & _).
    unfold before. rewrite Ex, Ey. simpl. apply Qltb_true. lra.
  - apply Forall_app. split.
    + eapply Forall_impl; [|exact Hbound].
      intros c (q & Eq & Hq0 & Hq). exists q. repeat split; auto; lra.
    + eapply Forall_impl; [|exact Hnew].
      intros c (q & Eq & Hq0 & Hq). exists q. repeat split; auto; lra.
  - apply Forall_app. split; [assumption|].
    apply Forall_forall. intros p Hp. apply in_map_iff in Hp.
    destruct Hp as (c & <- & _). cbn [fst]. exists b. split; [reflexivity | lra].
  - unfold mains at 1. rewrite filter_app.
    fold (mains log0). fold (mains (map (pair (Fin b)) new)).
    rewrite mains_pair. unfold new. rewrite mains_ticks64.
    destruct (chain64_mains b d Ed ts t t' Hchain) as [C1 C2].
    eapply chain64_app; [exact Hc0 | exact C1 | now rewrite C2].
Qed.

Lemma run64_committed :
  forall (acts : list action) (m : Metronome) (log0 : list (number * click))
         (t : Q),
    Forall boundedAction acts -> boundedMetronome m ->
    nextTime m = Fin t -> 0 <= t <= CLOCK_MAX + 4 -> committed64 log0 t ->
    exists (m' : Metronome) (log : list (number * click)) (t' : Q),
      (exists fuel0 : nat, forall fuel : nat,
          (fuel0 <= fuel)%nat -> Scheduler64.run fuel acts m = Some (m', log))
      /\ nextTime m' = Fin t' /\ 0 <= t' <= CLOCK_MAX + 4
      /\ committed64 (log0 ++ log) t'.
Proof.
  induction acts as [|a acts IH]; intros m log0 t Hacts Hm Ht Htr Hinv.
  - exists m, [], t. rewrite app_nil_r.
    split; [exists 0%nat; reflexivity|].
    split; [assumption|]. split; assumption.
  - inversion Hacts as [|? ? Ha Hrest]; subst.
    destruct Hm as (Hbpm & s & Hs1 & Hs).
    destruct a as [b|n|now]; simpl in Ha.
    + destruct (IH (setBpm b m) log0 t) as (m' & log & t' & Hrun & H');
        auto; [split; [exact Ha | exists s; auto]|].
      exists m', log, t'. split; assumption.
    + destruct (setSubdivision_bounded n m Ha) as (s' & Hs1' & Hs').
      destruct (IH (setSubdivision n m) log0 t) as (m' & log & t' & Hrun & H');
        auto; [split; [exact Hbpm | exists s'; auto]|].
      exists m', log, t'. split; assumption.
    + destruct Ha as (c & -> & Hc). destruct Hbpm as (b & Hb & Hbr).
      destruct (tick64_spec m b s t c)
        as (d & w & ts & t1 & Ed & Hd & _ & Hw & Hchain & Hin & Hlim & Hmax & _
            & f0 & Htick); auto.
      set (m1 := {| bpm := bpm m; subdivision := subdivision m;
                    isRunning := isRunning m; nextTime := Fin t1 |}) in *.
      set (new := flat_map (fun u => Scheduler64.beatSpec s u (Fin d)) ts) in *.
      destruct (IH m1 (log0 ++ map (pair (Fin b)) new) t1)
        as (m' & log & t' & (f1 & Hrun) & Hnext & Hmax' & Hinv'); auto.
      * split; [exists b; auto | exists s; auto].
      * apply committed64_tick with (t := t); auto; [lra|].
        eapply Forall_impl; [|exact Hin]. intros u [U1 U2].
        unfold CLOCK_MAX, LOOKAHEAD, TIME_EPS in *. lra.
      * exists m', (map (pair (Fin b)) new ++ log), t'.
        rewrite app_assoc. split; [|split; [assumption|]; split; assumption].
        exists (Nat.max f0 f1). intros fuel Hfuel. cbn [Scheduler64.run].
        rewrite Htick by lia. fold m1. rewrite Hrun by lia. now rewrite Hb.
Qed.

(** One step of a chain is a spacing of [60 / bpm], up to a nanosecond. *)
Lemma chain64_spaced (l : list (number * click)) (tend : number) :
  Forall (fun p => within 20 300 (fst p)
                   /\ exists q, time (snd p) = Fin q /\ 0 <= q <= CLOCK_MAX + 4) l ->
  chain64 l tend -> spacedWithin TIME_EPS l.
Proof.
  induction l as [|[b c] l IH]; intros Hfin Hc; [exact I|].
  inversion Hfin as [|? ? [(bq & Eb & Hbq) (x & Hx & Hxr)] Hfin']; subst.
  destruct Hc as [Hh Ht]. cbn [spacedWithin]. split; [|now apply IH].
  destruct l as [|[b' c'] l]; [exact I|].
  inversion Hfin' as [|? ? [_ (y & Hy & _)] _]; subst.
  cbn [front fst snd] in *. rewrite Hx, Hy in *.
  destruct (duration64 bq Hbq) as (d & Ed & Hd).
  destruct (next64 bq d Hbq Hd x Hxr) as (t1 & E1 & N1 & N2).
  rewrite Eb, Ed, E1 in Hh. injection Hh as <-.
  exists bq, x, t1. split; [exact Eb|]. split; [reflexivity|].
  split; [reflexivity|]. apply Qabs_Qle_condition. lra.
Qed.

(* ------------------------------------------------------------------ *)
(** ** Scheduler: the stated properties *)

(** C2.  In binary64, from a metronome whose tempo is in [20, 300] and whose
    subdivision is an integer between 1 and [SUB_MAX], any sequence of ticks
    at clock values up to [CLOCK_MAX], interleaved with tempo and subdivision
    changes, runs to completion.  The clicks come out with strictly
    increasing timestamps.  Each main beat plus the beat duration of its
    tick, as the code computes them, is the next main beat, and the last one
    gives the committed [nextTime]: no beat is ever restarted from the clock.
    So adjacent main beats are [60 / bpm] seconds apart up to [TIME_EPS],
    [bpm] being the tempo of the tick that played the earlier beat.  [setBpm]
    itself never moves the committed [nextTime]. *)
Theorem scheduler_phase_continuity
    (acts : list action) (m : Metronome) (t : Q) :
  Forall boundedAction acts -> boundedMetronome m ->
  nextTime m = Fin t -> 0 <= t <= CLOCK_MAX ->
  (forall (b : number) (m0 : Metronome), nextTime (setBpm b m0) = nextTime m0)
  /\ exists (m' : Metronome) (log : list (number * click)),
       (exists fuel0 : nat, forall fuel : nat,
           (fuel0 <= fuel)%nat -> Scheduler64.run fuel acts m = Some (m', log))
       /\ StronglySorted before (map snd log)
       /\ chain64 (mains log) (nextTime m')
       /\ spacedWithin TIME_EPS (mains log).
Proof.
  intros Hacts Hm Ht Htr. split; [reflexivity|].
  destruct (run64_committed acts m [] t Hacts Hm Ht)
    as (m' & log & t' & Hrun & Hnext & Hmax & Hsorted & Hbound & Htags & Hchain).
  { unfold CLOCK_MAX in *. lra. }
  { repeat split; constructor. }
  exists m', log. simpl in *. rewrite Hnext.
  repeat split; try assumption.
  apply chain64_spaced with (Fin t'); [|assumption].
  unfold mains. apply Forall_forall. intros p Hp.
  apply filter_In in Hp. destruct Hp as [Hp _].
  rewrite Forall_forall in Hbound, Htags. split; [now apply Htags|].
  destruct (Hbound (snd p)) as (q & Hq & Hq0 & Hq1); [now apply in_map|].
  exists q. split; [assumption | lra].
Qed.

Lemma scheduler_phase_continuity_witness :
  (forall (b : number) (m0 : Metronome), nextTime (setBpm b m0) = nextTime m0)
  /\ exists (m' : Metronome) (log : list (number * click)),
       (exists fuel0 : nat, forall fuel : nat,
           (fuel0 <= fuel)%nat ->
           Scheduler64.run fuel [Tick (Fin 0); SetBpm (Fin 120); Tick (Fin 1)]
               (start (Fin 0) (newMetronome (Fin 100))) = Some (m', log))
       /\ StronglySorted before (map snd log)
       /\ chain64 (mains log) (nextTime m')
       /\ spacedWithin TIME_EPS (mains log).
Proof.
  apply (scheduler_phase_continuity
           [Tick (Fin 0); SetBpm (Fin 120); Tick (Fin 1)]
           (start (Fin 0) (newMetronome (Fin 100))) 0).
  - repeat constructor.
    + exists 0. repeat split; discriminate.
    + exists 120. repeat split; discriminate.
    + exists 1. repeat split; discriminate.
  - split.
    + exists 100. repeat split; discriminate.
    + exists 1%Z. split; [unfold SUB_MAX; lia | reflexivity].
  - reflexivity.
  - split; discriminate.
Defined.

(** C5.  In binary64, a tick plays whole beats: for each main beat it plays,
    at [u], the clicks that follow it are the sub events at
    [u + (i/s) * (60/bpm)] for [i = 1 .. s-1], the expression being evaluated
    as the document writes it.  There are [s - 1] of them, each within
    [TIME_EPS] of the real number the expression denotes, strictly after the
    main beat and strictly before the next one. *)
Theorem sub_events_exact (m : Metronome) (b : Q) (s : Z) (t c : Q) :
  bpm m = Fin b -> 20 <= b <= 300 ->
  subdivision m = of_Z s -> (1 < s <= SUB_MAX)%Z ->
  nextTime m = Fin t -> 0 <= t <= CLOCK_MAX -> 0 <= c <= CLOCK_MAX ->
  exists (m' : Metronome) (ts : list Q),
    (exists fuel0 : nat, forall fuel : nat,
        (fuel0 <= fuel)%nat ->
        Scheduler64._schedule fuel (Fin c) m
        = Some (m', flat_map
                      (fun u => Scheduler64.beatSpec s u
                                  (Binary64.div (Fin 60) (Fin b))) ts))
    /\ Forall
         (fun u =>
            length (Scheduler64.subSpec s u (Binary64.div (Fin 60) (Fin b)))
            = Z.to_nat (s - 1)
            /\ closeTo TIME_EPS
                 (Scheduler64.subSpec s u (Binary64.div (Fin 60) (Fin b)))
                 (subSpec s u (60 / b))
            /\ Forall
                 (fun k =>
                    lt (Fin u) (time k) = true
                    /\ lt (time k)
                          (Binary64.add (Fin u) (Binary64.div (Fin 60) (Fin b)))
                       = true
                    /\ main k = false)
                 (Scheduler64.subSpec s u (Binary64.div (Fin 60) (Fin b))))
         ts.
Proof.
  intros Hb Hrange Hs Hs1 Ht Htr Hc.
  assert (Hs1' : (1 <= s <= SUB_MAX)%Z) by lia.
  destruct (tick64_spec m b s t c)
    as (d & w & ts & t' & Ed & Hd & _ & Hw & Hchain & Hin & _ & _ & _ & Hrun);
    auto; [unfold CLOCK_MAX in *; lra|].
  eexists. exists ts. rewrite Ed. split; [exact Hrun|].
  eapply Forall_impl; [|exact Hin]. intros u [U1 U2].
  assert (Hu : 0 <= u <= CLOCK_MAX + 4)
    by (unfold CLOCK_MAX, LOOKAHEAD, TIME_EPS in *; lra).
  destruct (next64 b d Hrange Hd u Hu) as (t1 & E1 & _).
  split; [|split].
  - unfold Scheduler64.subSpec. rewrite length_map, length_seq. lia.
  - exact (subSpec64_close b s d Hrange Hs1' Hd u Hu).
  - eapply Forall_impl; [|exact (subSpec64_strict b s d Hrange Hs1' Hd u t1 Hu E1)].
    intros k (q & Eq & Q1 & Q2 & Hmain). rewrite Eq, E1. cbn [lt].
    repeat split; [now apply Qltb_true | now apply Qltb_true | assumption].
Qed.

Lemma sub_events_exact_witness :
  exists (m' : Metronome) (ts : list Q),
    (exists fuel0 : nat, forall fuel : nat,
        (fuel0 <= fuel)%nat ->
        Scheduler64._schedule fuel (Fin 0)
          (start (Fin 0) (setSubdivision (Fin 3) (newMetronome (Fin 90))))
        = Some (m', flat_map
                      (fun u => Scheduler64.beatSpec 3 u
                                  (Binary64.div (Fin 60) (Fin 90))) ts))
    /\ Forall
         (fun u =>
            length (Scheduler64.subSpec 3 u (Binary64.div (Fin 60) (Fin 90)))
            = Z.to_nat (3 - 1)
            /\ closeTo TIME_EPS
                 (Scheduler64.subSpec 3 u (Binary64.div (Fin 60) (Fin 90)))
                 (subSpec 3 u (60 / 90))
            /\ Forall
                 (fun k =>
                    lt (Fin u) (time k) = true
                    /\ lt (time k)
                          (Binary64.add (Fin u) (Binary64.div (Fin 60) (Fin 90)))
                       = true
                    /\ main k = false)
                 (Scheduler64.subSpec 3 u (Binary64.div (Fin 60) (Fin 90))))
         ts.
Proof.
  apply (sub_events_exact
           (start (Fin 0) (setSubdivision (Fin 3) (newMetronome (Fin 90))))
           90 3 0 0).
  - reflexivity.
  - split; discriminate.
  - reflexivity.
  - unfold SUB_MAX. lia.
  - reflexivity.
  - split; discriminate.
  - split; discriminate.
Defined.

(** At 90 bpm with three subdivisions the sub events of the beat at 0 are
    the binary64 numbers 0.2222222222222222 and 0.4444444444444444, next to
    2/9 and 4/9 and different from them. *)
Remark sub_events_at_90_bpm :
  Scheduler64.subSpec 3 0 (Binary64.div (Fin 60) (Fin 90))
  = [ Click (Fin (2001599834386887 # 9007199254740992)) false;
      Click (Fin (2001599834386887 # 4503599627370496)) false ]
  /\ ~ (2001599834386887 # 9007199254740992) == 2 # 9
  /\ ~ (2001599834386887 # 4503599627370496) == 4 # 9.
Proof.
  split; [vm_compute; reflexivity|]. split; discriminate.
Qed.

(** C6, as the code has it.  For a tempo in [20, 300] and clock values up to
    [CLOCK_MAX] a tick terminates.  Its loop does not run at all when the
    committed [nextTime] is not below [currentTime + 0.1].  When it runs,
    the beats before the last one lie inside the window, a beat being
    [60 / bpm] seconds up to [TIME_EPS]; so the loop runs fewer than
    [(currentTime + LOOKAHEAD - nextTime) / beatDuration + 1 + 1/8] times,
    the eighth covering the rounding of the additions.  It runs at most
    once, which is within [LOOKAHEAD / beatDuration + 1], when the committed
    [nextTime] is not behind the clock on entry. *)
Theorem tick_terminates (m : Metronome) (b : Q) (s : Z) (t c : Q) :
  bpm m = Fin b -> 20 <= b <= 300 ->
  subdivision m = of_Z s -> (1 <= s <= SUB_MAX)%Z ->
  nextTime m = Fin t -> 0 <= t <= CLOCK_MAX -> 0 <= c <= CLOCK_MAX ->
  exists (m' : Metronome) (cs : list click),
    (exists fuel0 : nat, forall fuel : nat,
        (fuel0 <= fuel)%nat ->
        Scheduler64._schedule fuel (Fin c) m = Some (m', cs))
    /\ (iterations cs = 0%nat
        <-> lt (Fin t) (Binary64.add (Fin c) Scheduler64.LOOKAHEAD) = false)
    /\ (iterations cs = 0%nat
        \/ (inject_Z (Z.of_nat (iterations cs)) - 1) * (60 / b - TIME_EPS)
           < c + LOOKAHEAD - t + TIME_EPS
           /\ inject_Z (Z.of_nat (iterations cs))
              < (c + LOOKAHEAD - t) / (60 / b) + 1 + (1 # 8))
    /\ (c <= t ->
        (iterations cs <= 1)%nat
        /\ inject_Z (Z.of_nat (iterations cs)) <= LOOKAHEAD / (60 / b) + 1).
Proof.
  intros Hb Hrange Hs Hs1 Ht Htr Hc.
  destruct (tick64_spec m b s t c)
    as (d & w & ts & t' & Ed & Hd & Ew & Hw & Hchain & Hin & Hlim & _ & Hcount
        & Hrun);
    auto; [unfold CLOCK_MAX in *; lra|].
  eexists. eexists. split; [exact Hrun|].
  unfold iterations. rewrite mains_ticks64, length_map.
  destruct (beat_bounds b Hrange) as [B1 B2].
  set (K := inject_Z (Z.of_nat (length ts))) in *.
  assert (HK0 : 0 <= K).
  { unfold K. change 0 with (inject_Z 0). rewrite <- Zle_Qle. lia. }
  assert (HKd : K * (1 # 5) <= K * (60 / b)).
  { rewrite !(Qmult_comm K). apply Qmult_le_compat_r; assumption. }
  unfold CLOCK_MAX, LOOKAHEAD, TIME_EPS in *.
  assert (Hlen : ts = [] \/
                 (K - 1) * (60 / b - (1 # 1073741824))
                 < c + 0.1 - t + (1 # 1073741824)).
  { destruct Hcount as [->|Hcount]; [now left | right; lra]. }
  split; [|split].
  - rewrite Ew. cbn [lt]. rewrite Qltb_false. split.
    + intros Hz. destruct ts as [|u ts]; [|discriminate Hz].
      cbn [mainChain] in Hchain. subst t'. exact Hlim.
    + intros Hwt. destruct ts as [|u ts]; [reflexivity|].
      destruct Hchain as (-> & _). inversion Hin as [|? ? [_ Hu] _]; subst.
      lra.
  - destruct Hlen as [->|Hlen]; [now left | right]. split; [exact Hlen|].
    assert (E : (c + 0.1 - t) / (60 / b) + 1 + (1 # 8)
                == (c + 0.1 - t + (60 / b) * (9 # 8)) / (60 / b))
      by (field; lra).
    rewrite E. apply Qlt_shift_div_l; [lra|]. lra.
  - intros Hct.
    assert (H1 : (length ts <= 1)%nat).
    { destruct Hlen as [->|Hlen]; [simpl; lia|].
      assert (X : K < inject_Z 2).
      { change (inject_Z 2) with 2.
        destruct (Qlt_le_dec K 1) as [|HK1]; [lra|].
        assert (HKd' : (K - 1) * (1 # 5) <= (K - 1) * (60 / b)).
        { rewrite !(Qmult_comm (K - 1)). apply Qmult_le_compat_r; lra. }
        lra. }
      unfold K in X. rewrite <- Zlt_Qlt in X. lia. }
    split; [exact H1|].
    assert (HL : 0 < 0.1 / (60 / b)) by (apply Qlt_shift_div_l; lra).
    assert (X : K <= inject_Z 1).
    { unfold K. rewrite <- Zle_Qle. lia. }
    change (inject_Z 1) with 1 in X. lra.
Qed.

Lemma tick_terminates_witness :
  (exists (m' : Metronome) (cs : list click),
    (exists fuel0 : nat, forall fuel : nat,
        (fuel0 <= fuel)%nat ->
        Scheduler64._schedule fuel (Fin 0.5) (start (Fin 0) (newMetronome (Fin 300)))
        = Some (m', cs))
    /\ (iterations cs = 0%nat
        <-> lt (Fin 0) (Binary64.add (Fin 0.5) Scheduler64.LOOKAHEAD) = false)
    /\ (iterations cs = 0%nat
        \/ (inject_Z (Z.of_nat (iterations cs)) - 1) * (60 / 300 - TIME_EPS)
           < 0.5 + LOOKAHEAD - 0 + TIME_EPS
           /\ inject_Z (Z.of_nat (iterations cs))
              < (0.5 + LOOKAHEAD - 0) / (60 / 300) + 1 + (1 # 8))
    /\ (0.5 <= 0 ->
        (iterations cs <= 1)%nat
        /\ inject_Z (Z.of_nat (iterations cs)) <= LOOKAHEAD / (60 / 300) + 1))
  /\ (exists (m' : Metronome) (cs : list click),
    (exists fuel0 : nat, forall fuel : nat,
        (fuel0 <= fuel)%nat ->
        Scheduler64._schedule fuel (Fin 2) (start (Fin 2) (newMetronome (Fin 100)))
        = Some (m', cs))
    /\ (iterations cs = 0%nat
        <-> lt (Fin 2) (Binary64.add (Fin 2) Scheduler64.LOOKAHEAD) = false)
    /\ (iterations cs = 0%nat
        \/ (inject_Z (Z.of_nat (iterations cs)) - 1) * (60 / 100 - TIME_EPS)
           < 2 + LOOKAHEAD - 2 + TIME_EPS
           /\ inject_Z (Z.of_nat (iterations cs))
              < (2 + LOOKAHEAD - 2) / (60 / 100) + 1 + (1 # 8))
    /\ (2 <= 2 ->
        (iterations cs <= 1)%nat
        /\ inject_Z (Z.of_nat (iterations cs)) <= LOOKAHEAD / (60 / 100) + 1)).
Proof.
  split.
  - apply (tick_terminates (start (Fin 0) (newMetronome (Fin 300))) 300 1 0 0.5).
    + reflexivity.
    + split; discriminate.
    + reflexivity.
    + unfold SUB_MAX. lia.
    + reflexivity.
    + split; discriminate.
    + split; discriminate.
  - apply (tick_terminates (start (Fin 2) (newMetronome (Fin 100))) 100 1 2 2).
    + reflexivity.
    + split; discriminate.
    + reflexivity.
    + unfold SUB_MAX. lia.
    + reflexivity.
    + split; discriminate.
    + split; discriminate.
Defined.

(** C6 as stated fails: started at clock 0 with 300 bpm, a first tick that
    comes at clock 0.5 runs the loop three times, while
    [LOOKAHEAD / beatDuration + 1] is 1.5. *)
Lemma tick_iteration_bound_fails :
  exists (m' : Metronome) (cs : list click),
    Scheduler64._schedule 4 (Fin 0.5) (start (Fin 0) (newMetronome (Fin 300)))
    = Some (m', cs)
    /\ iterations cs = 3%nat
    /\ ~ inject_Z (Z.of_nat (iterations cs)) <= LOOKAHEAD / (60 / 300) + 1.
Proof.
  eexists. eexists. split; [vm_compute; reflexivity|].
  split; [reflexivity|]. vm_compute. intros H. apply H. reflexivity.
Qed.

(** The bound on the clock is a real one.  At [2^53] seconds the sum
    [nextTime + 0.6] is [nextTime] again: with the clock two seconds ahead,
    the loop of a tick at 100 bpm plays the same beat for ever. *)
Remark unbounded_clock_stalls (fuel : nat) :
  Scheduler64._schedule fuel (Fin 9007199254740994)
    {| bpm := Fin 100; subdivision := Fin 1; isRunning := true;
       nextTime := Fin 9007199254740992 |} = None.
Proof.
  unfold Scheduler64._schedule, Scheduler64.beatDuration.
  cbn [bpm subdivision nextTime].
  assert (H : Scheduler64.scheduleLoop fuel (Fin 9007199254740994) (Fin 1)
                (Binary64.div (Fin 60) (Fin 100)) (Fin 9007199254740992)
              = None); [|now rewrite H].
  assert (Ew : Binary64.add (Fin 9007199254740994) Scheduler64.LOOKAHEAD
               = Fin 9007199254740994) by (vm_compute; reflexivity).
  assert (Et : Binary64.add (Fin 9007199254740992)
                 (Binary64.div (Fin 60) (Fin 100))
               = Fin 9007199254740992) by (vm_compute; reflexivity).
  induction fuel as [|fuel IH]; rewrite scheduleLoop64_eq, Ew;
    change (lt (Fin 9007199254740992) (Fin 9007199254740994)) with true;
    cbn iota; [reflexivity|].
  unfold Scheduler64.beatClicks.
  change (gt (Fin 1) (Fin 1)) with false. cbn iota.
  now rewrite Et, IH.
Qed.

(** The rounding shows in the count.  At 100 bpm from clock 0 the main beats
    are 0, 0.6, 1.2 and 1.7999999999999998 in binary64; a tick at clock 1.7,
    whose window ends at 1.8, plays the four of them, where exact operations
    put the fourth beat on the end of the window and play three. *)
Remark rounding_adds_an_iteration :
  (exists m' : Metronome,
     Scheduler64._schedule 5 (Binary64.fl64 1.7)
       (start (Fin 0) (newMetronome (Fin 100)))
     = Some (m', [ Click (Fin 0) true;
                   Click (Fin (5404319552844595 # 9007199254740992)) true;
                   Click (Fin (5404319552844595 # 4503599627370496)) true;
                   Click (Fin (2026619832316723 # 1125899906842624)) true ]))
  /\ Binary64.add (Binary64.fl64 1.7) Scheduler64.LOOKAHEAD
     = Fin (8106479329266893 # 4503599627370496)
  /\ (2026619832316723 # 1125899906842624) < (8106479329266893 # 4503599627370496)
  /\ (exists m' : Metronome,
        _schedule 5 (Fin 1.7) (start (Fin 0) (newMetronome (Fin 100)))
        = Some (m', [ Click (Fin 0) true; Click (Fin (0 + 60 / 100)) true;
                      Click (Fin (0 + 60 / 100 + 60 / 100)) true ])).
Proof.
  split; [eexists; vm_compute; reflexivity|].
  split; [vm_compute; reflexivity|].
  split; [reflexivity|].
  eexists. reflexivity.
Qed.

(* ------------------------------------------------------------------ *)
(** ** Clamping at the call sites of [setBpm] *)



(* ------------------------------------------------------------------ *)
(** ** Tap tempo *)

Lemma fold_left_add (xs : list Z) (x : Z) :
  fold_left Z.add xs x = fold_right Z.add 0%Z (x :: xs).
Proof.
  revert x. induction xs as [|y xs IH]; intros x; simpl; [lia|].
  rewrite IH. simpl. lia.
Qed.

Lemma intervals_length (ts : list Z) :
  length (intervals ts) = (length ts - 1)%nat.
Proof.
  induction ts as [|a [|b ts] IH]; try reflexivity.
  cbn [intervals length] in *. rewrite IH. lia.
Qed.

Lemma tapBpm_mean (ts : list Z) :
  (2 <= length ts)%nat ->
  tapBpm ts = Some (JS.max (Fin 20) (JS.min (Fin 300) (avgBpm ts))).
Proof.
  intros Hlen. unfold tapBpm, avgBpm, avgInterval.
  pose proof (intervals_length ts) as Hn.
  destruct (intervals ts) as [|x xs] eqn:E; [simpl in Hn; lia|].
  cbn [reduceAdd]. rewrite fold_left_add. reflexivity.
Qed.



Lemma handleTap_buffer (now : Z) (a : App) :
  tapTimes (handleTap now a)
  = (if (5 <? length (tapTimes a ++ [now]))%nat
     then tl (tapTimes a ++ [now]) else tapTimes a ++ [now])
  /\ tapTimeout (handleTap now a) = Some (now + 5000)%Z.
Proof.
  unfold handleTap.
  set (kept := if (5 <? length (tapTimes a ++ [now]))%nat
               then tl (tapTimes a ++ [now]) else tapTimes a ++ [now]).
  destruct (2 <=? length kept)%nat; [destruct (tapBpm kept)|]; split; reflexivity.
Qed.

Lemma handleTap_bpm (now : Z) (a : App) :
  bpm (metro (handleTap now a))
  = if (2 <=? length (tapTimes (handleTap now a)))%nat
    then JS.max (Fin 20)
           (JS.min (Fin 300) (avgBpm (tapTimes (handleTap now a))))
    else bpm (metro a).
Proof.
  rewrite (proj1 (handleTap_buffer now a)). unfold handleTap.
  set (kept := if (5 <? length (tapTimes a ++ [now]))%nat
               then tl (tapTimes a ++ [now]) else tapTimes a ++ [now]).
  destruct (2 <=? length kept)%nat eqn:E; [|reflexivity].
  apply Nat.leb_le in E. rewrite (tapBpm_mean kept E). reflexivity.
Qed.


(* ------------------------------------------------------------------ *)
(** ** Tempo setter: the stated properties *)


(** What the missing clamp costs: with a negative tempo, which [setBpm]
    accepts, the beat duration is negative, [nextTime] moves away from the
    window and the loop of [_schedule] never ends. *)
Lemma scheduleLoop_negative_tempo (c d : Q) :
  d < 0 ->
  forall (fuel : nat) (t : Q),
    t < c + LOOKAHEAD ->
    scheduleLoop fuel (Fin c) (Fin 1) (Fin d) (Fin t) = None.
Proof.
  intros Hd. induction fuel as [|fuel IH]; intros t Ht;
    rewrite scheduleLoop_eq; cbn [lt add];
    rewrite (proj2 (Qltb_true _ _) Ht); [reflexivity|].
  cbn [beatClicks gt lt]. cbn [add]. rewrite IH by lra. reflexivity.
Qed.



(* ------------------------------------------------------------------ *)
(** ** Tap tempo: the stated properties *)





(* ------------------------------------------------------------------ *)
(** ** Practice mode *)


Lemma shown_app (msg : message) (os os' : list output) :
  shown msg (os ++ os') = (shown msg os + shown msg os')%nat.
Proof. unfold shown. now rewrite filter_app, length_app. Qed.

Lemma min_Fin (x y : Q) :
  exists r, JS.min (Fin x) (Fin y) = Fin r /\ r == Qmin x y.
Proof.
  cbn [JS.min lt]. destruct (Qltb y x) eqn:E.
  - apply Qltb_true in E. exists y. split; [reflexivity|].
    symmetry. apply Q.min_r. lra.
  - apply Qltb_false in E. exists x. split; [reflexivity|].
    symmetry. now apply Q.min_l.
Qed.

Lemma max_Fin (x y : Q) :
  exists r, JS.max (Fin x) (Fin y) = Fin r /\ r == Qmax x y.
Proof.
  cbn [JS.max lt]. destruct (Qltb x y) eqn:E.
  - apply Qltb_true in E. exists y. split; [reflexivity|].
    symmetry. apply Q.max_r. lra.
  - apply Qltb_false in E. exists x. split; [reflexivity|].
    symmetry. now apply Q.max_l.
Qed.



Lemma handleFail_step (a : App) :
  practiceMode a = true ->
  practiceMode (handleFail a) = true
  /\ practiceSettings (handleFail a) = practiceSettings a
  /\ correctCount (practiceState (handleFail a)) = 0%Z
  /\ currentBpm (practiceState (handleFail a))
     = JS.max (Fin 20) (sub (currentBpm (practiceState a))
                            (penalty (practiceSettings a)))
  /\ bpm (metro (handleFail a)) = currentBpm (practiceState (handleFail a))
  /\ consecutiveFails (practiceState (handleFail a))
     = (if (3 <=? consecutiveFails (practiceState a) + 1)%Z
        then 0%Z else (consecutiveFails (practiceState a) + 1)%Z)
  /\ shown ConsiderBreak (outputs (handleFail a))
     = (if (3 <=? consecutiveFails (practiceState a) + 1)%Z
        then S (shown ConsiderBreak (outputs a))
        else shown ConsiderBreak (outputs a)).
Proof.
  intros Hmode. unfold handleFail. rewrite Hmode. cbn [negb].
  destruct (3 <=? consecutiveFails (practiceState a) + 1)%Z;
    app_simpl; rewrite !shown_app; cbn [shown filter length];
    repeat split; try reflexivity; try assumption; lia.
Qed.






(* ------------------------------------------------------------------ *)
(** ** The metronome follows the session *)

Lemma startPracticeMode_inSync (currentTime : number) (a : App) :
  inSync (startPracticeMode currentTime a)
  /\ practiceMode (startPracticeMode currentTime a) = true.
Proof.
  unfold inSync, startPracticeMode, start. app_simpl.
  destruct (isRunning (metro a)); split; reflexivity.
Qed.

Lemma handlePass_inSync (a : App) :
  (practiceMode a = true -> inSync a) ->
  practiceMode (handlePass a) = true -> inSync (handlePass a).
Proof.
  unfold inSync, handlePass. intros Hinv.
  destruct (practiceMode a) eqn:Hmode; cbn [negb]; [|congruence].
  specialize (Hinv eq_refl).
  destruct (ge _ (requiredCorrect _)); [destruct (ge _ _)|]; app_simpl;
    intros H; try discriminate; auto.
Qed.

Lemma handleFail_inSync (a : App) :
  practiceMode (handleFail a) = true -> inSync (handleFail a).
Proof.
  destruct (practiceMode a) eqn:Hmode.
  - intros _. unfold inSync. now apply handleFail_step.
  - unfold handleFail. rewrite Hmode. cbn [negb]. congruence.
Qed.

Lemma scale_inSync (a : App) :
  (practiceMode a = true -> inSync a) ->
  (practiceMode (startHoldInc a) = true -> inSync (startHoldInc a))
  /\ (practiceMode (startHoldDec a) = true -> inSync (startHoldDec a)).
Proof.
  unfold inSync, startHoldInc, startHoldDec, _doIncrement. intros Hinv.
  destruct (practiceMode a) eqn:Hmode.
  - specialize (Hinv eq_refl).
    destruct (lt _ _), (gt _ _); app_simpl; auto.
  - app_simpl. split; congruence.
Qed.

Lemma practiceRun_inSync (es : list practiceEvent) :
  forall a : App,
    (practiceMode a = true -> inSync a) ->
    practiceMode (practiceRun es a) = true -> inSync (practiceRun es a).
Proof.
  unfold practiceRun. induction es as [|e es IH]; intros a Hinv; [exact Hinv|].
  cbn [fold_left]. apply IH.
  destruct e; cbn [practiceStep].
  - now apply handlePass_inSync.
  - apply handleFail_inSync.
  - now apply scale_inSync.
  - now apply scale_inSync.
Qed.

(** C10.  Starting practice mode leaves the metronome at the session tempo.
    In practice mode so does a fail, a pass that advances the level, a pulse
    doubling below 16 and a pulse halving above 1, whatever the metronome
    played before.  Hence, after any sequence of passes, fails, doublings and
    halvings that follows the start, the metronome tempo is [currentBpm] as
    long as the session is active. *)
Theorem practice_tempo_in_sync
    (a : App) (currentTime : number) (es : list practiceEvent) :
  inSync (startPracticeMode currentTime a)
  /\ (practiceMode a = true ->
      inSync (handleFail a)
      /\ (ge (of_Z (correctCount (practiceState a) + 1))
             (requiredCorrect (practiceSettings a)) = true ->
          ge (div (currentBpm (practiceState a)) (currentPulse (practiceState a)))
             (div (targetBpm (practiceSettings a))
                  (pulseInt (targetPulse (practiceSettings a)))) = false ->
          inSync (handlePass a))
      /\ (lt (currentPulse (practiceState a)) (Fin 16) = true ->
          inSync (startHoldInc a))
      /\ (gt (currentPulse (practiceState a)) (Fin 1) = true ->
          inSync (startHoldDec a)))
  /\ (practiceMode (practiceRun es (startPracticeMode currentTime a)) = true ->
      inSync (practiceRun es (startPracticeMode currentTime a))).
Proof.
  split; [apply startPracticeMode_inSync|]. split.
  - intros Hmode. split; [|split; [|split]].
    + unfold inSync. now apply handleFail_step.
    + intros Hreq Htarget. unfold inSync, handlePass.
      rewrite Hmode, Hreq, Htarget. reflexivity.
    + intros Hlt. unfold inSync, startHoldInc. rewrite Hmode, Hlt. reflexivity.
    + intros Hgt. unfold inSync, startHoldDec. rewrite Hmode, Hgt. reflexivity.
  - apply practiceRun_inSync. intros _. apply startPracticeMode_inSync.
Qed.

Lemma practice_tempo_in_sync_witness :
  practiceMode
    (practiceRun [Fail; Pass; Double; Halve; Pass]
       (startPracticeMode (Fin 0) initialApp)) = true
  /\ inSync (practiceRun [Fail; Pass; Double; Halve; Pass]
               (startPracticeMode (Fin 0) initialApp))
  /\ inSync (handleFail (startPracticeMode (Fin 0) initialApp))
  /\ inSync (handlePass (startPracticeMode (Fin 0) initialApp))
  /\ inSync (startHoldInc (startPracticeMode (Fin 0) initialApp))
  /\ inSync (startHoldDec (startPracticeMode (Fin 0) initialApp)).
Proof.
  split; [reflexivity|].
  destruct (practice_tempo_in_sync initialApp (Fin 0)
              [Fail; Pass; Double; Halve; Pass]) as (_ & _ & Hrun).
  split; [exact (Hrun eq_refl)|].
  destruct (practice_tempo_in_sync (startPracticeMode (Fin 0) initialApp)
              (Fin 0) []) as (_ & Hops & _).
  destruct (Hops eq_refl) as (Hfail & Hpass & Hinc & Hdec).
  split; [exact Hfail|]. split; [exact (Hpass eq_refl eq_refl)|].
  split; [exact (Hinc eq_refl) | exact (Hdec eq_refl)].
Defined.

(* ------------------------------------------------------------------ *)
(** ** Saving the practice settings *)

(** What [savePracticeSettings] does guarantee: whatever the dialog holds,
    [requiredCorrect] and [increment] end up at least 1 as long as the values
    in force were numbers, and [penalty] ends up at least 0 when the penalty
    field reads as a number. *)
Lemma savePracticeSettings_clamps (f : PracticeForm) (s : PracticeSettings) :
  requiredCorrect s <> NaN -> increment s <> NaN ->
  le (Fin 1) (requiredCorrect (savePracticeSettings f s)) = true
  /\ le (Fin 1) (increment (savePracticeSettings f s)) = true
  /\ (psPenalty f <> NaN ->
      le (Fin 0) (penalty (savePracticeSettings f s)) = true).
Proof.
  assert (Hmax : forall (lo : Q) (x : number),
             x <> NaN -> le (Fin lo) (JS.max (Fin lo) x) = true).
  { intros lo x Hx. destruct x as [| |q|]; try contradiction; cbn.
    - apply Qle_bool_iff. lra.
    - destruct (Qltb lo q) eqn:E; cbn; apply Qle_bool_iff.
      + apply Qltb_true in E. lra.
      + lra.
    - reflexivity. }
  assert (Hor : forall x y : number, y <> NaN -> JS.or x y <> NaN).
  { intros x y Hy. unfold JS.or. destruct x; cbn; auto; try discriminate.
    destruct (Qeq_bool q 0); cbn; auto. discriminate. }
  intros Hreq Hinc. cbn [savePracticeSettings requiredCorrect increment penalty].
  repeat split; auto.
Qed.

(** C9 fails on the penalty field.  When its text is not a number,
    [Number(psPenalty.value)] is NaN and [Math.max(0, NaN)] is NaN: the stored
    penalty is NaN, [penalty >= 0] is false, and the first fail of the session
    started from these settings sets the session tempo and the metronome to
    NaN.  The required count and the increment, read with a [||] fallback,
    stay at least 1 on the same input. *)
Theorem penalty_not_a_number_is_stored :
  penalty
    (savePracticeSettings
       {| psStarting := Fin 60; psTarget := Fin 120; psRequired := NaN;
          psIncrement := NaN; psPenalty := NaN;
          psStartingPulse := Some quarter; psTargetPulse := Some quarter |}
       initialSettings) = NaN
  /\ ge (penalty
           (savePracticeSettings
              {| psStarting := Fin 60; psTarget := Fin 120; psRequired := NaN;
                 psIncrement := NaN; psPenalty := NaN;
                 psStartingPulse := Some quarter;
                 psTargetPulse := Some quarter |}
              initialSettings)) (Fin 0) = false
  /\ ge (requiredCorrect
           (savePracticeSettings
              {| psStarting := Fin 60; psTarget := Fin 120; psRequired := NaN;
                 psIncrement := NaN; psPenalty := NaN;
                 psStartingPulse := Some quarter;
                 psTargetPulse := Some quarter |}
              initialSettings)) (Fin 1) = true
  /\ ge (increment
           (savePracticeSettings
              {| psStarting := Fin 60; psTarget := Fin 120; psRequired := NaN;
                 psIncrement := NaN; psPenalty := NaN;
                 psStartingPulse := Some quarter;
                 psTargetPulse := Some quarter |}
              initialSettings)) (Fin 1) = true
  /\ bpm (metro
       (handleFail
          (startPracticeClick
             {| psStarting := Fin 60; psTarget := Fin 120; psRequired := NaN;
                psIncrement := NaN; psPenalty := NaN;
                psStartingPulse := Some quarter;
                psTargetPulse := Some quarter |}
             (Fin 0) initialApp))) = NaN.
Proof. repeat split; reflexivity. Qed.

(* ------------------------------------------------------------------ *)
(** ** Further properties of the scheduler *)



(** [setSubdivision(n)] stores the integer part of [n], and 1 when that is
    below 1 or when [n] is zero, NaN or -infinity; +infinity is stored as
    it is.  The other fields are untouched. *)
Theorem setSubdivision_floor (m : Metronome) (q : Q) :
  subdivision (setSubdivision (Fin q) m) = of_Z (Z.max 1 (Qfloor q))
  /\ subdivision (setSubdivision NaN m) = Fin 1
  /\ subdivision (setSubdivision NegInf m) = Fin 1
  /\ subdivision (setSubdivision PosInf m) = PosInf
  /\ bpm (setSubdivision (Fin q) m) = bpm m
  /\ nextTime (setSubdivision (Fin q) m) = nextTime m
  /\ isRunning (setSubdivision (Fin q) m) = isRunning m.
Proof.
  repeat split; try reflexivity.
  assert (Hz : forall z : Z, JS.max (Fin 1) (of_Z z) = of_Z (Z.max 1 z)).
  { intros z. change (Fin 1) with (of_Z 1). unfold JS.max, of_Z at 1 2.
    fold (of_Z 1). fold (of_Z z). rewrite lt_of_Z.
    destruct (Z.ltb_spec 1 z).
    - now rewrite Z.max_r by lia.
    - now rewrite Z.max_l by lia. }
  unfold setSubdivision. cbn [subdivision]. unfold JS.or. cbn [truthy].
  destruct (Qeq_bool q 0) eqn:E; cbn [negb floor].
  - apply Qeq_bool_iff in E. rewrite (Qfloor_comp q 0 E). apply (Hz 1%Z).
  - apply Hz.
Qed.














(* ------------------------------------------------------------------ *)
(** ** Further properties of practice mode *)

Lemma savePracticeSettings_clamps_witness :
  le (Fin 1)
     (requiredCorrect
        (savePracticeSettings
           {| psStarting := Fin 80; psTarget := NaN; psRequired := Fin (-3);
              psIncrement := NaN; psPenalty := Fin (-2);
              psStartingPulse := None; psTargetPulse := Some eighth |}
           initialSettings)) = true
  /\ le (Fin 1)
        (increment
           (savePracticeSettings
              {| psStarting := Fin 80; psTarget := NaN; psRequired := Fin (-3);
                 psIncrement := NaN; psPenalty := Fin (-2);
                 psStartingPulse := None; psTargetPulse := Some eighth |}
              initialSettings)) = true
  /\ le (Fin 0)
        (penalty
           (savePracticeSettings
              {| psStarting := Fin 80; psTarget := NaN; psRequired := Fin (-3);
                 psIncrement := NaN; psPenalty := Fin (-2);
                 psStartingPulse := None; psTargetPulse := Some eighth |}
              initialSettings)) = true.
Proof.
  destruct (savePracticeSettings_clamps
              {| psStarting := Fin 80; psTarget := NaN; psRequired := Fin (-3);
                 psIncrement := NaN; psPenalty := Fin (-2);
                 psStartingPulse := None; psTargetPulse := Some eighth |}
              initialSettings) as (H1 & H2 & H3); try discriminate.
  split; [exact H1|]. split; [exact H2|]. apply H3. discriminate.
Defined.

Lemma max_max (lo : Q) (x : number) :
  JS.max (Fin lo) (JS.max (Fin lo) x) = JS.max (Fin lo) x.
Proof.
  destruct x as [| |q|]; try reflexivity.
  - cbn. now rewrite (proj2 (Qltb_false lo lo) (Qle_refl lo)).
  - cbn [JS.max lt]. destruct (Qltb lo q) eqn:E; cbn [JS.max lt].
    + now rewrite E.
    + now rewrite (proj2 (Qltb_false lo lo) (Qle_refl lo)).
Qed.

Lemma or_or (x y : number) : JS.or x (JS.or x y) = JS.or x y.
Proof. unfold JS.or. destruct (truthy x); reflexivity. Qed.

(** Saving the same dialog twice stores what saving it once stores: the
    auto-save on every change followed by the save of the start button does
    not drift. *)
Theorem savePracticeSettings_idempotent
    (f : PracticeForm) (s : PracticeSettings) :
  savePracticeSettings f (savePracticeSettings f s) = savePracticeSettings f s.
Proof.
  unfold savePracticeSettings.
  cbn [startingBpm startingPulse targetBpm targetPulse requiredCorrect
       increment penalty].
  rewrite !or_or.
  assert (H : forall x y : number,
             JS.max (Fin 1) (JS.or x (JS.max (Fin 1) (JS.or x y)))
             = JS.max (Fin 1) (JS.or x y)).
  { intros x y. unfold JS.or. destruct (truthy x); [reflexivity|].
    apply max_max. }
  rewrite !H.
  destruct (psStartingPulse f), (psTargetPulse f); reflexivity.
Qed.

Lemma ge_of_Z (a b : Z) : ge (of_Z a) (of_Z b) = (b <=? a)%Z.
Proof.
  unfold ge. cbn [le of_Z]. destruct (Z.leb_spec b a) as [H|H].
  - apply Qle_bool_iff. now rewrite <- Zle_Qle.
  - apply not_true_iff_false. rewrite Qle_bool_iff, <- Zle_Qle. lia.
Qed.

(** With [requiredCorrect = n], passes below the [n]-th only count: after
    [k] passes in a row that leave the count below [n], the count has gone up
    by [k] and the session tempo, the pulse, the metronome, practice mode and
    the messages and log entries are exactly as before. *)
Theorem passes_only_count (a : App) (n : Z) (k : nat) :
  practiceMode a = true ->
  requiredCorrect (practiceSettings a) = of_Z n ->
  (correctCount (practiceState a) + Z.of_nat k < n)%Z ->
  correctCount (practiceState (practiceRun (repeat Pass k) a))
  = (correctCount (practiceState a) + Z.of_nat k)%Z
  /\ currentBpm (practiceState (practiceRun (repeat Pass k) a))
     = currentBpm (practiceState a)
  /\ currentPulse (practiceState (practiceRun (repeat Pass k) a))
     = currentPulse (practiceState a)
  /\ metro (practiceRun (repeat Pass k) a) = metro a
  /\ practiceMode (practiceRun (repeat Pass k) a) = true
  /\ practiceSettings (practiceRun (repeat Pass k) a) = practiceSettings a
  /\ outputs (practiceRun (repeat Pass k) a) = outputs a.
Proof.
  revert a. induction k as [|k IH]; intros a Hmode Hreq Hlt.
  - cbn. repeat split; try reflexivity; try assumption. lia.
  - cbn [repeat]. unfold practiceRun. cbn [fold_left practiceStep].
    fold (practiceRun (repeat Pass k) (handlePass a)).
    assert (E : handlePass a
                = withState {| currentBpm := currentBpm (practiceState a);
                               correctCount := correctCount (practiceState a) + 1;
                               consecutiveFails := 0;
                               currentPulse := currentPulse (practiceState a) |}
                            a).
    { unfold handlePass. rewrite Hmode, Hreq, ge_of_Z. cbn [negb].
      destruct (Z.leb_spec n (correctCount (practiceState a) + 1));
        [lia | reflexivity]. }
    rewrite E.
    destruct (IH (withState {| currentBpm := currentBpm (practiceState a);
                               correctCount := correctCount (practiceState a) + 1;
                               consecutiveFails := 0;
                               currentPulse := currentPulse (practiceState a) |}
                            a))
      as (H1 & H2 & H3 & H4 & H5 & H6 & H7);
      try assumption; [cbn; lia|].
    cbn in H1, H2, H3, H4, H6, H7.
    repeat split; try assumption. rewrite H1. lia.
Qed.

Lemma passes_only_count_witness :
  correctCount
    (practiceState
       (practiceRun (repeat Pass 2)
          (startPracticeClick
             {| psStarting := Fin 60; psTarget := Fin 120; psRequired := Fin 3;
                psIncrement := Fin 10; psPenalty := Fin 10;
                psStartingPulse := None; psTargetPulse := None |}
             (Fin 0) initialApp))) = (0 + Z.of_nat 2)%Z
  /\ metro
       (practiceRun (repeat Pass 2)
          (startPracticeClick
             {| psStarting := Fin 60; psTarget := Fin 120; psRequired := Fin 3;
                psIncrement := Fin 10; psPenalty := Fin 10;
                psStartingPulse := None; psTargetPulse := None |}
             (Fin 0) initialApp))
     = metro
         (startPracticeClick
            {| psStarting := Fin 60; psTarget := Fin 120; psRequired := Fin 3;
               psIncrement := Fin 10; psPenalty := Fin 10;
               psStartingPulse := None; psTargetPulse := None |}
            (Fin 0) initialApp).
Proof.
  destruct (passes_only_count
              (startPracticeClick
                 {| psStarting := Fin 60; psTarget := Fin 120;
                    psRequired := Fin 3; psIncrement := Fin 10;
                    psPenalty := Fin 10;
                    psStartingPulse := None; psTargetPulse := None |}
                 (Fin 0) initialApp) 3 2)
    as (H1 & _ & _ & H4 & _); try reflexivity.
  split; [exact H1 | exact H4].
Defined.

Section TempoRange.

Variables (cfg : PracticeSettings) (sb tb inc pen : Q).
Hypothesis cfg_start : startingBpm cfg = Fin sb.
Hypothesis cfg_target : targetBpm cfg = Fin tb.
Hypothesis cfg_increment : increment cfg = Fin inc.
Hypothesis cfg_penalty : penalty cfg = Fin pen.
Hypothesis start_min : 20 <= sb.
Hypothesis inc_pos : 0 <= inc.
Hypothesis pen_pos : 0 <= pen.








End TempoRange.



(* ------------------------------------------------------------------ *)
(** ** Tempo names *)

Lemma le_of_Z (a b : Z) : le (of_Z a) (of_Z b) = (a <=? b)%Z.
Proof. exact (ge_of_Z b a). Qed.

(** For an integer tempo [getTempoName] falls back to "Larghissimo" exactly
    when the tempo is below 0 or above 500; so the name shown for a tempo in
    [20, 300], which [updateBpmDisplay] rounds first, is always a name of the
    table. *)
Theorem getTempoName_fallback (z : Z) (b : Q) :
  20 <= b <= 300 ->
  (getTempoName (of_Z z) = "Larghissimo"%string <-> (z < 0 \/ 500 < z)%Z)
  /\ getTempoName (round (Fin b)) <> "Larghissimo"%string.
Proof.
  intros Hb.
  assert (H : forall z : Z,
             getTempoName (of_Z z) = "Larghissimo"%string
             <-> (z < 0 \/ 500 < z)%Z).
  { clear. intros z. unfold getTempoName, tempoNames.
    cbn [tempoNameIn rangeMin rangeMax rangeName].
    change (Fin 0) with (of_Z 0). change (Fin 39) with (of_Z 39).
    change (Fin 40) with (of_Z 40). change (Fin 59) with (of_Z 59).
    change (Fin 60) with (of_Z 60). change (Fin 65) with (of_Z 65).
    change (Fin 66) with (of_Z 66). change (Fin 75) with (of_Z 75).
    change (Fin 76) with (of_Z 76). change (Fin 89) with (of_Z 89).
    change (Fin 90) with (of_Z 90). change (Fin 104) with (of_Z 104).
    change (Fin 105) with (of_Z 105). change (Fin 114) with (of_Z 114).
    change (Fin 115) with (of_Z 115). change (Fin 129) with (of_Z 129).
    change (Fin 130) with (of_Z 130). change (Fin 167) with (of_Z 167).
    change (Fin 168) with (of_Z 168). change (Fin 199) with (of_Z 199).
    change (Fin 200) with (of_Z 200). change (Fin 500) with (of_Z 500).
    rewrite !ge_of_Z, !le_of_Z.
    repeat match goal with
           | |- context [(?x <=? ?y)%Z] =>
               destruct (Z.leb_spec x y); cbn [andb]; try lia
           end;
      (split; [intros E; try discriminate E; lia | intros E; try reflexivity; lia]). }
  split; [apply H|]. cbn [round]. rewrite H.
  assert (H20 : (20 <= Qfloor (b + (1 # 2)))%Z).
  { rewrite <- (Qfloor_Z 20). apply Qfloor_resp_le.
    change (inject_Z 20) with 20. lra. }
  assert (H301 : (Qfloor (b + (1 # 2)) <= 301)%Z).
  { rewrite <- (Qfloor_Z 301). apply Qfloor_resp_le.
    change (inject_Z 301) with 301. lra. }
  lia.
Qed.

Lemma getTempoName_fallback_witness :
  (getTempoName (of_Z 120) = "Larghissimo"%string <-> (120 < 0 \/ 500 < 120)%Z)
  /\ getTempoName (round (Fin 59.5)) <> "Larghissimo"%string.
Proof.
  apply (getTempoName_fallback 120 59.5). split; discriminate.
Defined.

(* ------------------------------------------------------------------ *)
(** ** Dragging the tempo circle *)

(** Unfolds the updates of the page record and reads the fields. *)
Ltac page_simpl :=
  unfold withApp, withDrag, updateBpmDisplay, enterTapMode, exitTapMode;
  cbn [app isDragging dragStartY tapMode tapModeTimer bpmDisplay tempoName
       tempoNamePrev];
  app_simpl.

Lemma Qfloor_unique (x : Q) (z : Z) :
  inject_Z z <= x -> x < inject_Z (z + 1) -> Qfloor x = z.
Proof.
  intros Hlo Hhi.
  pose proof (Qfloor_le x) as H1. pose proof (Qlt_floor x) as H2.
  assert (Ha : inject_Z z < inject_Z (Qfloor x + 1)) by lra.
  assert (Hb : inject_Z (Qfloor x) < inject_Z (z + 1)) by lra.
  rewrite <- Zlt_Qlt in Ha, Hb. lia.
Qed.

Lemma clamp_Fin (x : Q) :
  exists r : Q,
    JS.max (Fin 20) (JS.min (Fin 300) (Fin x)) = Fin r
    /\ r == Qmax 20 (Qmin 300 x).
Proof.
  destruct (min_Fin 300 x) as (r1 & E1 & H1). rewrite E1.
  destruct (max_Fin 20 r1) as (r2 & E2 & H2). exists r2.
  split; [assumption|]. rewrite H2, H1. reflexivity.
Qed.

Lemma dragMove_step (p : Page) (y0 y b : Q) :
  isDragging p = true -> dragStartY p = Fin y0 ->
  bpm (metro (app p)) = Fin b ->
  isDragging (dragMove (Fin y) p) = true
  /\ dragStartY (dragMove (Fin y) p) = Fin y
  /\ practiceState (app (dragMove (Fin y) p)) = practiceState (app p)
  /\ practiceMode (app (dragMove (Fin y) p)) = practiceMode (app p)
  /\ bpmDisplay (dragMove (Fin y) p) = round (bpm (metro (app (dragMove (Fin y) p))))
  /\ exists r : Q,
       bpm (metro (app (dragMove (Fin y) p))) = Fin r
       /\ r == Qmax 20 (Qmin 300
                 (b + inject_Z (Qfloor ((y0 - y) / 3 + (1 # 2))))).
Proof.
  intros Hdrag Hy0 Hb. unfold dragMove. rewrite Hdrag, Hy0, Hb. cbn [negb].
  cbn [sub neg add]. rewrite div_Fin by discriminate. cbn [round]. unfold of_Z.
  cbn [add].
  destruct (clamp_Fin (b + inject_Z (Qfloor ((y0 + - y) / 3 + (1 # 2)))))
    as (r & Er & Hr).
  rewrite Er. page_simpl. repeat split; try reflexivity.
  exists r. split; [reflexivity|]. exact Hr.
Qed.



(** A drag made of moves shorter than 1.5 pixels each never changes a tempo
    that is in [20, 300], however far the pointer travels: each move rounds
    to no change and takes the reference ordinate along. *)
Theorem slow_drag_changes_nothing (ys : list Q) :
  forall (p : Page) (y0 b : Q),
    isDragging p = true -> dragStartY p = Fin y0 ->
    bpm (metro (app p)) = Fin b -> 20 <= b <= 300 ->
    slowMoves y0 ys ->
    bpm (metro (app (dragMoves ys p))) =n= Fin b.
Proof.
  unfold dragMoves.
  induction ys as [|y ys IH]; intros p y0 b Hdrag Hy0 Hb Hrange Hslow.
  - cbn. rewrite Hb. cbn. reflexivity.
  - destruct Hslow as (Hlo & Hhi & Hrest). cbn [fold_left].
    destruct (dragMove_step p y0 y b Hdrag Hy0 Hb)
      as (Hdrag' & Hy' & _ & _ & _ & r & Er & Hr).
    assert (E0 : Qfloor ((y0 - y) / 3 + (1 # 2)) = 0%Z).
    { assert (E3 : (y0 - y) / 3 == (y0 - y) * (1 # 3)) by (field; discriminate).
      apply Qfloor_unique.
      - change (inject_Z 0) with 0. rewrite E3. lra.
      - change (inject_Z (0 + 1)) with 1. rewrite E3. lra. }
    rewrite E0 in Hr. change (inject_Z 0) with 0 in Hr.
    assert (Hrb : r == b).
    { rewrite Hr.
      destruct (Q.min_spec 300 (b + 0)) as [[? ->] | [? ->]];
        destruct (Q.max_spec 20 300) as [[? E1] | [? E1]];
        destruct (Q.max_spec 20 (b + 0)) as [[? E2] | [? E2]];
        try rewrite E1; try rewrite E2; lra. }
    specialize (IH (dragMove (Fin y) p) y r Hdrag' Hy' Er).
    assert (Hgoal : bpm (metro (app (fold_left (fun acc y1 => dragMove (Fin y1) acc)
                                       ys (dragMove (Fin y) p)))) =n= Fin r).
    { apply IH; [rewrite Hrb; exact Hrange | exact Hrest]. }
    eapply same_trans; [exact Hgoal|]. exact Hrb.
Qed.

Lemma slow_drag_changes_nothing_witness :
  bpm (metro (app (dragMoves [1; 2; 3; 4; 5] (mousedown (Fin 0) initialPage))))
  =n= Fin 100.
Proof.
  apply (slow_drag_changes_nothing [1; 2; 3; 4; 5]
           (mousedown (Fin 0) initialPage) 0 100); try reflexivity.
  - split; discriminate.
  - cbn. repeat split; discriminate.
Defined.



(* ------------------------------------------------------------------ *)
(** ** Clicks on the tempo circle and tap mode *)

Lemma handleTap_has_now (now : Z) (a : App) :
  In now (tapTimes (handleTap now a)).
Proof.
  rewrite (proj1 (handleTap_buffer now a)).
  destruct (5 <? length (tapTimes a ++ [now]))%nat eqn:E.
  - destruct (tapTimes a) as [|x l] eqn:Et; [discriminate|].
    cbn [app tl]. apply in_or_app. right. now left.
  - apply in_or_app. right. now left.
Qed.

Lemma dragMoves_practiceMode (ys : list Q) :
  forall p : Page,
    practiceMode (app (dragMoves ys p)) = practiceMode (app p).
Proof.
  unfold dragMoves. induction ys as [|y ys IH]; intros p; [reflexivity|].
  cbn [fold_left]. rewrite IH. unfold dragMove.
  destruct (isDragging p); reflexivity.
Qed.

(** The guard of the click listener against drags never stops the click
    that ends a mouse gesture: [mouseup] has cleared the flag before the
    click is handled.  Outside practice mode a drag released over the circle
    is therefore also taken as a tap: its time enters the tap buffer and tap
    mode starts. *)
Theorem click_after_drag_is_a_tap (p : Page) (y0 : Q) (ys : list Q) (now : Z) :
  practiceMode (app p) = false ->
  In now (tapTimes (app (circleClick now
                           (mouseup (dragMoves ys (mousedown (Fin y0) p))))))
  /\ tapMode (circleClick now (mouseup (dragMoves ys (mousedown (Fin y0) p))))
     = true
  /\ tapModeTimer
       (circleClick now (mouseup (dragMoves ys (mousedown (Fin y0) p))))
     = Some (now + 2000)%Z.
Proof.
  intros Hmode.
  assert (Hq : practiceMode (app (mouseup (dragMoves ys (mousedown (Fin y0) p))))
               = false).
  { unfold mouseup. cbn [withDrag app]. rewrite dragMoves_practiceMode.
    unfold mousedown. now rewrite Hmode. }
  unfold circleClick. rewrite Hq. cbn [mouseup withDrag isDragging].
  repeat split; try reflexivity.
  unfold enterTapMode, pageHandleTap. cbn [app].
  match goal with
  | |- context [if ?c then _ else _] => destruct c
  end; page_simpl; apply handleTap_has_now.
Qed.

Lemma click_after_drag_is_a_tap_witness :
  In 1000%Z
     (tapTimes (app (circleClick 1000
                       (mouseup (dragMoves [690; 680]
                                   (mousedown (Fin 700) initialPage))))))
  /\ tapMode (circleClick 1000
                (mouseup (dragMoves [690; 680] (mousedown (Fin 700) initialPage))))
     = true
  /\ tapModeTimer
       (circleClick 1000
          (mouseup (dragMoves [690; 680] (mousedown (Fin 700) initialPage))))
     = Some (1000 + 2000)%Z.
Proof.
  apply (click_after_drag_is_a_tap initialPage 700 [690; 680] 1000).
  reflexivity.
Defined.

Lemma handleTap_frame (now : Z) (a : App) :
  practiceMode (handleTap now a) = practiceMode a
  /\ practiceState (handleTap now a) = practiceState a
  /\ practiceSettings (handleTap now a) = practiceSettings a
  /\ outputs (handleTap now a) = outputs a.
Proof.
  unfold handleTap.
  match goal with
  | |- context [if ?c then _ else _] => destruct c
  end; [match goal with
        | |- context [match ?c with Some _ => _ | None => _ end] => destruct c
        end|]; repeat split; reflexivity.
Qed.

Lemma elapse_frame (now : Z) (a : App) :
  practiceMode (elapse now a) = practiceMode a
  /\ metro (elapse now a) = metro a
  /\ (tapTimes a = [] -> tapTimes (elapse now a) = [])
  /\ (forall deadline : Z,
        tapTimeout a = Some deadline -> (now < deadline)%Z -> elapse now a = a).
Proof.
  unfold elapse. destruct (tapTimeout a) as [d|].
  - destruct (Z.leb_spec d now) as [Hdue | Hdue];
      repeat split; try reflexivity; auto.
    intros d' Hd' Hlt. injection Hd' as <-. lia.
  - repeat split; auto; discriminate.
Qed.

Lemma pageHandleTap_fields (now : Z) (p : Page) :
  app (pageHandleTap now p) = handleTap now (app p)
  /\ isDragging (pageHandleTap now p) = isDragging p
  /\ tapMode (pageHandleTap now p) = tapMode p
  /\ tempoNamePrev (pageHandleTap now p) = tempoNamePrev p
  /\ tempoName (pageHandleTap now p)
     = (if (2 <=? length (tapTimes (handleTap now (app p))))%nat
        then (if negb (tapMode p)
              then getTempoName (round (bpm (metro (handleTap now (app p)))))
              else tempoName p)
        else tempoName p)
  /\ bpmDisplay (pageHandleTap now p)
     = (if (2 <=? length (tapTimes (handleTap now (app p))))%nat
        then round (bpm (metro (handleTap now (app p))))
        else bpmDisplay p).
Proof.
  unfold pageHandleTap. cbn [withApp app].
  destruct (2 <=? length (tapTimes (handleTap now (app p))))%nat;
    repeat split; reflexivity.
Qed.

(** The state a first click builds from a page that is idle: no drag, no
    practice session, no tap mode and an empty tap buffer. *)
Lemma first_click (p : Page) (t1 : Z) :
  practiceMode (app p) = false -> isDragging p = false ->
  tapModeTimer p = None -> tapTimes (app p) = [] ->
  isDragging (clickAt t1 p) = false
  /\ practiceMode (app (clickAt t1 p)) = false
  /\ tapMode (clickAt t1 p) = true
  /\ tapModeTimer (clickAt t1 p) = Some (t1 + 2000)%Z
  /\ tapTimes (app (clickAt t1 p)) = [t1]
  /\ tapTimeout (app (clickAt t1 p)) = Some (t1 + 5000)%Z
  /\ metro (app (clickAt t1 p)) = metro (app p)
  /\ tempoName (clickAt t1 p) = "TAP"%string
  /\ tempoNamePrev (clickAt t1 p) = Some (tempoName p).
Proof.
  intros Hmode Hdrag Htimer Htaps.
  destruct (elapse_frame t1 (app p)) as (Em & Emetro & Etaps & _).
  specialize (Etaps Htaps).
  assert (E : clickAt t1 p
              = enterTapMode t1 (pageHandleTap t1 (withApp (elapse t1 (app p)) p))).
  { unfold clickAt, pageElapse. rewrite Htimer. unfold circleClick.
    cbn [withApp isDragging app]. now rewrite Hdrag, Em, Hmode. }
  rewrite E.
  destruct (pageHandleTap_fields t1 (withApp (elapse t1 (app p)) p))
    as (Happ & Hd & Htm & Hprev & Hname & Hdisp).
  cbn [withApp app isDragging tapMode tempoNamePrev tempoName bpmDisplay] in *.
  destruct (handleTap_buffer t1 (elapse t1 (app p))) as (Hbuf & Hto).
  rewrite Etaps in Hbuf. cbn in Hbuf.
  destruct (handleTap_frame t1 (elapse t1 (app p))) as (Hpm & _).
  pose proof (handleTap_bpm t1 (elapse t1 (app p))) as Hbpm.
  rewrite Hbuf in Hbpm, Hname. cbn in Hbpm, Hname.
  unfold enterTapMode.
  cbn [isDragging app tapMode tapModeTimer tempoName tempoNamePrev].
  rewrite Happ, Hd, Hbuf, Hto, Hpm, Em, Hname.
  repeat split; try assumption; try reflexivity.
  unfold handleTap. rewrite Etaps. cbn. exact Emetro.
Qed.

(** Two taps less than two seconds apart: the rounded quotient of binary64
    gives the integer the exact quotient gives.  Checked for each of the
    1999 intervals. *)
Lemma two_taps_checked :
  forallb
    (fun k : nat =>
       match Binary64.div (Fin 60000)
               (Binary64.div (of_Z (Z.of_nat k)) (of_Z 1)) with
       | Fin q =>
           (Qfloor (q + (1 # 2))
            =? Qfloor (60000 / (inject_Z (Z.of_nat k) / inject_Z 1) + (1 # 2)))%Z
       | _ => false
       end)
    (seq 1 1999) = true.
Proof. vm_compute. reflexivity. Qed.

Lemma two_taps_exact (t1 t2 : Z) :
  (t1 < t2)%Z -> (t2 < t1 + 2000)%Z ->
  avgBpm [t1; t2] = round (div (Fin 60000) (Fin (meanInterval [t1; t2]))).
Proof.
  intros H1 H2. unfold avgBpm, avgInterval, meanInterval.
  cbn [intervals fold_right length].
  pose proof two_taps_checked as H. rewrite forallb_forall in H.
  specialize (H (Z.to_nat (t2 - t1))).
  rewrite Z2Nat.id in H by lia.
  replace (t2 - t1 + 0)%Z with (t2 - t1)%Z by lia.
  change (Z.of_nat 1) with 1%Z.
  assert (Hk : 0 < inject_Z (t2 - t1)).
  { change 0 with (inject_Z 0). rewrite <- Zlt_Qlt. lia. }
  assert (Hm : 0 < inject_Z (t2 - t1) / inject_Z 1).
  { apply Qlt_shift_div_l; [reflexivity | lra]. }
  rewrite div_Fin by lra.
  destruct (Binary64.div (Fin 60000)
              (Binary64.div (of_Z (t2 - t1)) (of_Z 1))) as [| |q|];
    try (discriminate H; apply in_seq; lia).
  cbn [round]. f_equal. apply Z.eqb_eq. apply H. apply in_seq. lia.
Qed.

(** Tap mode leaves the label behind.  From an idle page, one click followed
    by the 2 s timeout puts the tempo name back as it was.  Two clicks less
    than 2 s apart set the tempo from their interval, and the timeout that
    follows leaves the label reading "TAP": the second click saved the label
    while it already read "TAP", and the display update made by the tap did
    not touch it. *)
Theorem tap_mode_label (p : Page) (t1 t2 t3 : Z) :
  practiceMode (app p) = false -> isDragging p = false ->
  tapModeTimer p = None -> tapTimes (app p) = [] ->
  (t1 < t2)%Z -> (t2 < t1 + 2000)%Z -> (t2 + 2000 <= t3)%Z ->
  tempoName (pageElapse t3 (clickAt t1 p)) = tempoName p
  /\ tempoName (pageElapse t3 (clickAt t2 (clickAt t1 p))) = "TAP"%string
  /\ tapMode (pageElapse t3 (clickAt t2 (clickAt t1 p))) = false
  /\ tapTimes (app (pageElapse t3 (clickAt t2 (clickAt t1 p)))) = []
  /\ bpm (metro (app (pageElapse t3 (clickAt t2 (clickAt t1 p)))))
     = JS.max (Fin 20)
         (JS.min (Fin 300)
            (round (div (Fin 60000) (Fin (meanInterval [t1; t2])))))
  /\ bpmDisplay (pageElapse t3 (clickAt t2 (clickAt t1 p)))
     = round (bpm (metro (app (pageElapse t3 (clickAt t2 (clickAt t1 p)))))).
Proof.
  intros Hmode Hdrag Htimer Htaps H12 H21 H23.
  destruct (first_click p t1 Hmode Hdrag Htimer Htaps)
    as (Hd1 & Hm1 & Htm1 & Htt1 & Hbuf1 & Hto1 & _ & Hname1 & Hprev1).
  set (p1 := clickAt t1 p) in *.
  split.
  { unfold pageElapse. rewrite Htt1.
    destruct (Z.leb_spec (t1 + 2000) t3); [|lia].
    unfold exitTapMode. cbn [tempoName]. now rewrite Hprev1. }
  assert (Eel : pageElapse t2 p1 = p1).
  { unfold pageElapse. rewrite Htt1.
    destruct (Z.leb_spec (t1 + 2000) t2); [lia|].
    destruct (elapse_frame t2 (app p1)) as (_ & _ & _ & Hsame).
    rewrite (Hsame _ Hto1) by lia. now destruct p1. }
  assert (E2 : clickAt t2 p1 = enterTapMode t2 (pageHandleTap t2 p1)).
  { unfold clickAt. rewrite Eel. unfold circleClick. now rewrite Hd1, Hm1. }
  rewrite E2.
  destruct (pageHandleTap_fields t2 p1) as (Happ & _ & _ & _ & Hname & Hdisp).
  destruct (handleTap_buffer t2 (app p1)) as (Hbuf & _).
  rewrite Hbuf1 in Hbuf. cbn in Hbuf.
  pose proof (handleTap_bpm t2 (app p1)) as Hbpm.
  rewrite Hbuf in Hbpm, Hname, Hdisp. cbn [length Nat.leb] in Hbpm, Hname, Hdisp.
  rewrite Htm1, Hname1 in Hname. cbn [negb] in Hname.
  assert (Eexit : pageElapse t3 (enterTapMode t2 (pageHandleTap t2 p1))
                  = exitTapMode (enterTapMode t2 (pageHandleTap t2 p1))).
  { unfold pageElapse, enterTapMode at 1. cbn [tapModeTimer].
    destruct (Z.leb_spec (t2 + 2000) t3); [reflexivity | lia]. }
  rewrite Eexit. unfold exitTapMode, enterTapMode.
  cbn [tempoName tempoNamePrev tapMode app bpmDisplay].
  unfold withTaps. cbn [tapTimes metro].
  rewrite Hname, Hdisp, Happ, Hbpm, (two_taps_exact t1 t2 H12 H21).
  repeat split; reflexivity.
Qed.

Lemma tap_mode_label_witness :
  tempoName (pageElapse 3000 (clickAt 0 initialPage)) = tempoName initialPage
  /\ tempoName (pageElapse 3000 (clickAt 500 (clickAt 0 initialPage)))
     = "TAP"%string
  /\ tapMode (pageElapse 3000 (clickAt 500 (clickAt 0 initialPage))) = false
  /\ tapTimes (app (pageElapse 3000 (clickAt 500 (clickAt 0 initialPage)))) = []
  /\ bpm (metro (app (pageElapse 3000 (clickAt 500 (clickAt 0 initialPage)))))
     = JS.max (Fin 20)
         (JS.min (Fin 300)
            (round (div (Fin 60000) (Fin (meanInterval [0; 500]%Z)))))
  /\ bpmDisplay (pageElapse 3000 (clickAt 500 (clickAt 0 initialPage)))
     = round (bpm (metro (app (pageElapse 3000
                                 (clickAt 500 (clickAt 0 initialPage)))))).
Proof.
  apply (tap_mode_label initialPage 0 500 3000); try reflexivity; lia.
Defined.



(* ------------------------------------------------------------------ *)
(** ** The service worker *)

Section Worker.

Import ServiceWorker.

Lemma cacheMatch_put_same (u : string) (r : response) (c : cache) :
  cacheMatch (cachePut u r c) u = Some r.
Proof.
  unfold cachePut. induction c as [|[k r'] c IH]; cbn.
  - now rewrite String.eqb_refl.
  - destruct (String.eqb k u) eqn:E; cbn; [exact IH|]. now rewrite E.
Qed.

Lemma cacheMatch_put_other (u v : string) (r : response) (c : cache) :
  u <> v -> cacheMatch (cachePut u r c) v = cacheMatch c v.
Proof.
  intros Huv. unfold cachePut. induction c as [|[k r'] c IH]; cbn.
  - now rewrite (proj2 (String.eqb_neq u v) Huv).
  - destruct (String.eqb k u) eqn:E; cbn.
    + apply String.eqb_eq in E. subst k.
      now rewrite (proj2 (String.eqb_neq u v) Huv).
    + destruct (String.eqb k v); [reflexivity | exact IH].
Qed.

Lemma cachesMatch_put_same (u : string) (r : response) (cs : cacheStorage) :
  cachesMatch cs u = None ->
  cachesMatch (cachesPut CACHE_NAME u r cs) u = Some r.
Proof.
  induction cs as [|[n c] cs IH]; cbn [cachesMatch cachesPut]; intros Hmiss.
  - cbn. now rewrite String.eqb_refl.
  - destruct (cacheMatch c u) eqn:Ec; [discriminate|].
    destruct (String.eqb n CACHE_NAME); cbn [cachesMatch].
    + now rewrite cacheMatch_put_same.
    + rewrite Ec. now apply IH.
Qed.

Lemma cachesMatch_put_other (u v : string) (r : response) (cs : cacheStorage) :
  u <> v ->
  cachesMatch (cachesPut CACHE_NAME u r cs) v = cachesMatch cs v.
Proof.
  intros Huv. induction cs as [|[n c] cs IH]; cbn [cachesMatch cachesPut].
  - cbn. now rewrite (proj2 (String.eqb_neq u v) Huv).
  - destruct (String.eqb n CACHE_NAME); cbn [cachesMatch].
    + now rewrite cacheMatch_put_other.
    + now rewrite IH.
Qed.

Lemma cachesMatch_put_kept (u v : string) (r : response) (cs : cacheStorage) :
  cachesMatch cs v <> None ->
  cachesMatch (cachesPut CACHE_NAME u r cs) v <> None.
Proof.
  intros Hv. destruct (String.eqb u v) eqn:E.
  - apply String.eqb_eq in E. subst v.
    induction cs as [|[n c] cs IH]; cbn [cachesMatch cachesPut] in *.
    + contradiction.
    + destruct (String.eqb n CACHE_NAME); cbn [cachesMatch].
      * now rewrite cacheMatch_put_same.
      * destruct (cacheMatch c u); [discriminate | now apply IH].
  - apply String.eqb_neq in E. now rewrite cachesMatch_put_other.
Qed.

Lemma cachesMatch_open (name v : string) (cs : cacheStorage) :
  cachesMatch (cachesOpen name cs) v = cachesMatch cs v.
Proof.
  unfold cachesOpen.
  destruct (existsb (fun e => String.eqb (fst e) name) cs); [reflexivity|].
  induction cs as [|[n c] cs IH]; [reflexivity|].
  change (((n, c) :: cs) ++ [(name, [])]) with ((n, c) :: (cs ++ [(name, [])])).
  cbn [cachesMatch]. destruct (cacheMatch c v); [reflexivity | exact IH].
Qed.

(** The worker is cache first and fills the cache as it goes, when the
    cache takes the entry.  A GET that no cache can answer and that the
    network answers is answered with the network response, whatever becomes
    of the put.  The put is not awaited: when the listener responds, every
    lookup still gives what it gave before.  If the put stores the entry,
    then once it has settled the same request gets that response whatever
    the network does, with no further put, and lookups of other URLs give
    what they gave before.  If the put throws or is rejected, nothing is
    stored: every lookup gives what it gave before. *)
Theorem fetched_once_served_offline
    (net net' : network) (put put' : putPolicy) (req : request)
    (cs : cacheStorage) (networkRes : response) :
  method req = "GET"%string ->
  cachesMatch cs (url req) = None ->
  net (url req) = Some networkRes ->
  fst (fst (onFetch net put req cs)) = RespondWith (Some networkRes)
  /\ (forall v : string,
        cachesMatch (snd (fst (onFetch net put req cs))) v = cachesMatch cs v)
  /\ (put (url req) networkRes = PutStores ->
      onFetch net' put' req (settled (onFetch net put req cs))
      = (RespondWith (Some networkRes), settled (onFetch net put req cs), None)
      /\ forall v : string,
           v <> url req ->
           cachesMatch (settled (onFetch net put req cs)) v = cachesMatch cs v)
  /\ (put (url req) networkRes <> PutStores ->
      forall v : string,
        cachesMatch (settled (onFetch net put req cs)) v = cachesMatch cs v).
Proof.
  intros Hget Hmiss Hnet.
  assert (E : onFetch net put req cs
              = (RespondWith (Some networkRes),
                 cachesOpen CACHE_NAME cs,
                 match put (url req) networkRes with
                 | PutThrows => None
                 | PutRejects => Some (mkPending (url req) networkRes false)
                 | PutStores => Some (mkPending (url req) networkRes true)
                 end)).
  { unfold onFetch. rewrite Hget, Hmiss, Hnet. reflexivity. }
  rewrite E. cbn [fst snd]. split; [reflexivity|].
  split; [intros v; apply cachesMatch_open|]. split.
  - intros Hput. rewrite Hput. unfold settled, settle.
    cbn [fst snd putStored putUrl putResponse].
    assert (Hmiss' : cachesMatch (cachesOpen CACHE_NAME cs) (url req) = None)
      by now rewrite cachesMatch_open.
    split.
    + unfold onFetch. rewrite Hget.
      now rewrite (cachesMatch_put_same _ _ _ Hmiss').
    + intros v Hv. rewrite cachesMatch_put_other by congruence.
      apply cachesMatch_open.
  - intros Hput v. unfold settled, settle.
    destruct (put (url req) networkRes); [| |contradiction];
      cbn [fst snd putStored]; apply cachesMatch_open.
Qed.

Lemma fetched_once_served_offline_witness :
  fst (fst (onFetch (fun _ => Some "body"%string) (fun _ _ => PutStores)
                    (mkRequest "GET" "cors" "/sounds/click.wav") []))
  = RespondWith (Some "body"%string)
  /\ onFetch (fun _ => None) (fun _ _ => PutStores)
             (mkRequest "GET" "cors" "/sounds/click.wav")
             (settled (onFetch (fun _ => Some "body"%string)
                               (fun _ _ => PutStores)
                               (mkRequest "GET" "cors" "/sounds/click.wav") []))
     = (RespondWith (Some "body"%string),
        settled (onFetch (fun _ => Some "body"%string) (fun _ _ => PutStores)
                         (mkRequest "GET" "cors" "/sounds/click.wav") []),
        None)
  /\ cachesMatch
       (settled (onFetch (fun _ => Some "body"%string) (fun _ _ => PutRejects)
                         (mkRequest "GET" "cors" "/sounds/click.wav") []))
       "/sounds/click.wav"
     = None.
Proof.
  destruct (fetched_once_served_offline
              (fun _ => Some "body"%string) (fun _ => None)
              (fun _ _ => PutStores) (fun _ _ => PutStores)
              (mkRequest "GET" "cors" "/sounds/click.wav") [] "body"%string)
    as (H1 & _ & H2 & _); try reflexivity.
  destruct (fetched_once_served_offline
              (fun _ => Some "body"%string) (fun _ => None)
              (fun _ _ => PutRejects) (fun _ _ => PutStores)
              (mkRequest "GET" "cors" "/sounds/click.wav") [] "body"%string)
    as (_ & _ & _ & H3); try reflexivity.
  split; [exact H1|]. split; [exact (proj1 (H2 eq_refl))|].
  apply H3. discriminate.
Defined.

Lemma fetchAll_keys (net : network) :
  forall (us : list string) (entries : list (string * response)),
    fetchAll net us = Some entries -> map fst entries = us.
Proof.
  induction us as [|u us IH]; cbn [fetchAll]; intros entries H.
  - injection H as <-. reflexivity.
  - destruct (net u); [|discriminate].
    destruct (fetchAll net us) as [rest|]; [|discriminate].
    injection H as <-. cbn. now rewrite (IH rest eq_refl).
Qed.

Lemma puts_cover (entries : list (string * response)) :
  forall (cs : cacheStorage) (v : string),
    In v (map fst entries) \/ cachesMatch cs v <> None ->
    cachesMatch
      (fold_left (fun acc e => cachesPut CACHE_NAME (fst e) (snd e) acc)
                 entries cs) v <> None.
Proof.
  induction entries as [|[u r] entries IH]; intros cs v H; cbn [fold_left].
  - destruct H as [[] | H]; exact H.
  - apply IH. cbn [map fst snd In] in *.
    destruct H as [[-> | H] | H]; [right | now left | right].
    + destruct (cachesMatch cs v) eqn:E.
      * apply cachesMatch_put_kept. now rewrite E.
      * now rewrite (cachesMatch_put_same _ _ _ E).
    + now apply cachesMatch_put_kept.
Qed.

(** Once [install] has succeeded, a navigation never fails for lack of
    network: whatever page is asked for, and with every fetch rejected, the
    worker responds with a response, the cached one for that URL or else the
    cached [/index.html]. *)
Theorem offline_navigation_after_install
    (net : network) (put : putPolicy) (cs : cacheStorage) (req : request) :
  fst (install net cs) = true ->
  method req = "GET"%string -> mode req = "navigate"%string ->
  exists r : response,
    onFetch (fun _ => None) put req (snd (install net cs))
    = (RespondWith (Some r), snd (install net cs), None).
Proof.
  intros Hok Hget Hnav. unfold install in *.
  destruct (fetchAll net ASSETS_TO_CACHE) as [entries|] eqn:E;
    [|discriminate]. cbn [snd].
  set (cs' := fold_left _ entries _).
  assert (Hindex : cachesMatch cs' "/index.html"%string <> None).
  { apply puts_cover. left. rewrite (fetchAll_keys net _ _ E).
    right. left. reflexivity. }
  unfold onFetch. rewrite Hget, Hnav. cbn [negb String.eqb].
  change (String.eqb "GET" "GET") with true.
  change (String.eqb "navigate" "navigate") with true. cbn [negb].
  destruct (cachesMatch cs' (url req)) as [r|]; [now exists r|].
  destruct (cachesMatch cs' "/index.html"%string) as [r|];
    [now exists r | contradiction].
Qed.

Lemma offline_navigation_after_install_witness :
  exists r : response,
    onFetch (fun _ => None) (fun _ _ => PutStores)
            (mkRequest "GET" "navigate" "/practice")
            (snd (install (fun u => Some u) []))
    = (RespondWith (Some r), snd (install (fun u => Some u) []), None).
Proof.
  apply (offline_navigation_after_install
           (fun u => Some u) (fun _ _ => PutStores) []
           (mkRequest "GET" "navigate" "/practice"));
    reflexivity.
Defined.

(** [activate] leaves no cache but the current one: every cache that
    remains is named [CACHE_NAME], the current cache keeps its entries, and
    a second activation changes nothing more. *)
Theorem activate_keeps_current (cs : cacheStorage) :
  Forall (fun e => fst e = CACHE_NAME) (activate cs)
  /\ (forall c : cache, In (CACHE_NAME, c) cs <-> In (CACHE_NAME, c) (activate cs))
  /\ activate (activate cs) = activate cs.
Proof.
  unfold activate. repeat split.
  - apply Forall_forall. intros e He. apply filter_In in He.
    now apply String.eqb_eq.
  - intros H. apply filter_In. split; [assumption | apply String.eqb_refl].
  - intros H. now apply filter_In in H.
  - induction cs as [|e cs IH]; [reflexivity|]. cbn [filter].
    destruct (String.eqb (fst e) CACHE_NAME) eqn:E; [|exact IH].
    cbn [filter]. now rewrite E, IH.
Qed.

End Worker.

(* ------------------------------------------------------------------ *)
(** ** Further properties of the tap estimator *)

Lemma intervals_sum (ts : list Z) :
  fold_right Z.add 0%Z (intervals ts) = (last ts 0 - hd 0 ts)%Z.
Proof.
  induction ts as [|a [|b ts] IH]; cbn [intervals fold_right last hd];
    try lia.
  cbn [intervals fold_right last hd] in IH. rewrite IH.
  destruct ts; cbn [last]; lia.
Qed.

Lemma handleTap_last (now : Z) (a : App) :
  last (tapTimes (handleTap now a)) 0%Z = now.
Proof.
  rewrite (proj1 (handleTap_buffer now a)).
  assert (H : forall l : list Z, last (l ++ [now]) 0%Z = now)
    by (intros l; apply last_last).
  destruct (tapTimes a) as [|x l]; [reflexivity|].
  destruct (5 <? length ((x :: l) ++ [now]))%nat; [|apply H].
  cbn [app tl]. apply H.
Qed.

(** The rounding of a number below [-1/4] is negative. *)
Lemma fl64_negative (q : Q) :
  q <= - (1 # 4) ->
  Binary64.fl64 q = NegInf \/ exists r : Q, Binary64.fl64 q = Fin r /\ r < 0.
Proof.
  intros H.
  assert (Habs : Qabs q == - q) by (apply Qabs_neg; lra).
  assert (Hn : 2 ^ (-1022) <= Qabs q).
  { rewrite Habs. apply Qle_trans with (1 # 4); [|lra].
    apply Qle_trans with (2 ^ (-2)); [apply pow2_le; lia|].
    apply Qle_bool_iff. reflexivity. }
  pose proof (nearest_error q Hn) as E. rewrite Habs in E.
  apply Qabs_Qle_condition in E. unfold Binary64.eps in E.
  unfold Binary64.fl64.
  destruct (Qeq_bool q 0) eqn:Z0; [apply Qeq_bool_iff in Z0; lra|].
  destruct (Qle_bool (2 ^ 1024) (Qabs (Binary64.nearest q))).
  - left. unfold Qltb.
    assert (Hle : Qle_bool q 0 = true) by (apply Qle_bool_iff; lra).
    now rewrite Hle.
  - right. exists (Qred (Binary64.nearest q)). split; [reflexivity|].
    rewrite Qred_correct. lra.
Qed.

(** The estimate only depends on the first and the last tap of the buffer:
    the intervals add up to their difference, so the mean interval is
    (last - first) / (taps - 1), and the tempo is [Math.round] of 60000 over
    that, with the divisions of binary64, clamped.  When the first and the
    last tap carry the same time the tempo is 300, and when the clock went
    backwards between them it is 20. *)
Theorem tap_estimate_uses_first_and_last (now : Z) (a : App) :
  (length (tapTimes a) <= 5)%nat ->
  (2 <= length (tapTimes (handleTap now a)))%nat ->
  meanInterval (tapTimes (handleTap now a))
  = inject_Z (now - hd 0%Z (tapTimes (handleTap now a)))
    / inject_Z (Z.of_nat (length (tapTimes (handleTap now a)) - 1))
  /\ bpm (metro (handleTap now a))
     = JS.max (Fin 20)
         (JS.min (Fin 300)
            (round
               (Binary64.div (Fin 60000)
                  (Binary64.div
                     (of_Z (now - hd 0%Z (tapTimes (handleTap now a))))
                     (of_Z (Z.of_nat
                              (length (tapTimes (handleTap now a)) - 1)))))))
  /\ (hd 0%Z (tapTimes (handleTap now a)) = now ->
      bpm (metro (handleTap now a)) = Fin 300)
  /\ ((now < hd 0%Z (tapTimes (handleTap now a)))%Z ->
      bpm (metro (handleTap now a)) = Fin 20).
Proof.
  intros Hlen5 Hlen.
  assert (Hkept : (length (tapTimes (handleTap now a)) <= 5)%nat).
  { rewrite (proj1 (handleTap_buffer now a)).
    assert (Hl : length (tapTimes a ++ [now]) = S (length (tapTimes a)))
      by (rewrite length_app; simpl; lia).
    destruct (Nat.ltb_spec 5 (length (tapTimes a ++ [now]))) as [H|H]; [|lia].
    destruct (tapTimes a ++ [now]); simpl in *; lia. }
  assert (Emean : meanInterval (tapTimes (handleTap now a))
                  = inject_Z (now - hd 0%Z (tapTimes (handleTap now a)))
                    / inject_Z (Z.of_nat
                         (length (tapTimes (handleTap now a)) - 1))).
  { unfold meanInterval.
    now rewrite intervals_sum, intervals_length, handleTap_last. }
  pose proof (handleTap_bpm now a) as Hbpm.
  rewrite (proj2 (Nat.leb_le _ _) Hlen) in Hbpm.
  unfold avgBpm, avgInterval in Hbpm.
  rewrite intervals_sum, intervals_length, handleTap_last in Hbpm.
  split; [exact Emean|]. split; [exact Hbpm|].
  set (n := Z.of_nat (length (tapTimes (handleTap now a)) - 1)) in *.
  assert (Hn : 1 <= inject_Z n).
  { unfold n. change 1 with (inject_Z 1). rewrite <- Zle_Qle. lia. }
  assert (Hn4 : inject_Z n <= 4).
  { unfold n. change 4 with (inject_Z 4). rewrite <- Zle_Qle. lia. }
  split.
  - intros Hsame. rewrite Hbpm, Hsame, Z.sub_diag.
    unfold of_Z. rewrite div64_Fin by lra.
    assert (E0 : Binary64.fl64 (inject_Z 0 / inject_Z n) = Fin 0).
    { rewrite (fl64_comp _ 0); [reflexivity|].
      change (inject_Z 0) with 0. field. lra. }
    rewrite E0. reflexivity.
  - intros Hback. rewrite Hbpm.
    set (d := inject_Z (now - hd 0%Z (tapTimes (handleTap now a)))) in *.
    assert (Hd : d <= - 1).
    { unfold d. change (- 1) with (inject_Z (- 1)). rewrite <- Zle_Qle. lia. }
    assert (Hm : d / inject_Z n <= - (1 # 4)).
    { apply Qle_shift_div_r; lra. }
    assert (Hclamp : forall x : number,
               (x = NegInf \/ exists r : Q, x = Fin r /\ r <= 0) ->
               JS.max (Fin 20) (JS.min (Fin 300) (round x)) = Fin 20).
    { intros x [->|(r & -> & Hr)]; [reflexivity|].
      cbn [round].
      assert (Hz : (Qfloor (r + (1 # 2)) <= 0)%Z).
      { pose proof (Qfloor_le (r + (1 # 2))) as Hfl.
        assert (Hlt1 : inject_Z (Qfloor (r + (1 # 2))) < inject_Z 1)
          by (change (inject_Z 1) with 1; lra).
        rewrite <- Zlt_Qlt in Hlt1. lia. }
      change (Fin 300) with (of_Z 300). change (Fin 20) with (of_Z 20).
      rewrite min_of_Z, max_of_Z. f_equal. lia. }
    apply Hclamp. unfold of_Z. fold d. rewrite div64_Fin by lra.
    destruct (fl64_negative (d / inject_Z n) Hm) as [E|(r & E & Hr)]; rewrite E.
    + right. exists 0. split; [reflexivity | lra].
    + rewrite div64_Fin by lra. apply fl64_nonpos.
      assert (Hp : 0 < 60000 / (- r)) by (apply Qlt_shift_div_l; lra).
      assert (Ho : 60000 / r == - (60000 / (- r))) by (field; lra).
      lra.
Qed.

Lemma tap_estimate_uses_first_and_last_witness :
  meanInterval (tapTimes (handleTap 900 (handleTap 400 (handleTap 0 initialApp))))
  = inject_Z (900 - hd 0%Z (tapTimes (handleTap 900
                              (handleTap 400 (handleTap 0 initialApp)))))
    / inject_Z (Z.of_nat
         (length (tapTimes (handleTap 900
                    (handleTap 400 (handleTap 0 initialApp)))) - 1))
  /\ bpm (metro (handleTap 5 (handleTap 5 initialApp))) = Fin 300
  /\ bpm (metro (handleTap 0 (handleTap 5 initialApp))) = Fin 20.
Proof.
  destruct (tap_estimate_uses_first_and_last 900
              (handleTap 400 (handleTap 0 initialApp))) as (H1 & _).
  { cbn. lia. }
  { cbn. lia. }
  split; [exact H1|].
  destruct (tap_estimate_uses_first_and_last 5 (handleTap 5 initialApp))
    as (_ & _ & H3 & _).
  { cbn. lia. }
  { cbn. lia. }
  split; [exact (H3 eq_refl)|].
  destruct (tap_estimate_uses_first_and_last 0 (handleTap 5 initialApp))
    as (_ & _ & _ & H4).
  { cbn. lia. }
  { cbn. lia. }
  apply H4. cbn. lia.
Defined.

(* ------------------------------------------------------------------ *)
(** ** The tempo buttons *)





(* ------------------------------------------------------------------ *)
(** ** Doubling and halving the pulse *)

Lemma startHoldInc_practice (a : App) :
  practiceMode a = true ->
  lt (currentPulse (practiceState a)) (Fin 16) = true ->
  practiceMode (startHoldInc a) = true
  /\ bpm (metro (startHoldInc a))
     = JS.min (Fin 300) (floor (mul (bpm (metro a)) (Fin 2)))
  /\ currentBpm (practiceState (startHoldInc a)) = bpm (metro (startHoldInc a))
  /\ currentPulse (practiceState (startHoldInc a))
     = mul (currentPulse (practiceState a)) (Fin 2).
Proof.
  intros Hmode Hlt. unfold startHoldInc. rewrite Hmode, Hlt. app_simpl.
  repeat split; assumption || reflexivity.
Qed.

Lemma startHoldDec_practice (a : App) :
  practiceMode a = true ->
  gt (currentPulse (practiceState a)) (Fin 1) = true ->
  practiceMode (startHoldDec a) = true
  /\ bpm (metro (startHoldDec a))
     = JS.max (Fin 20) (floor (div (bpm (metro a)) (Fin 2)))
  /\ currentBpm (practiceState (startHoldDec a)) = bpm (metro (startHoldDec a))
  /\ currentPulse (practiceState (startHoldDec a))
     = div (currentPulse (practiceState a)) (Fin 2).
Proof.
  intros Hmode Hgt. unfold startHoldDec. rewrite Hmode, Hgt. app_simpl.
  repeat split; assumption || reflexivity.
Qed.

Lemma floor_double (z : Z) : floor (mul (of_Z z) (Fin 2)) = of_Z (2 * z).
Proof.
  cbn [mul of_Z floor]. f_equal.
  apply Qfloor_unique; rewrite ?inject_Z_plus, inject_Z_mult;
    change (inject_Z 2) with 2; change (inject_Z 1) with 1; lra.
Qed.

Lemma floor_half (z : Z) : floor (div (of_Z z) (Fin 2)) = of_Z (z / 2).
Proof.
  unfold of_Z at 1. rewrite div_Fin by discriminate. cbn [floor]. f_equal.
  change 2 with (inject_Z 2). now rewrite <- Zdiv_Qdiv.
Qed.

(** In practice mode, doubling the pulse and then halving it gives back a
    whole tempo between 20 and 150 and the pulse; the session tempo follows
    the metronome.  Above 150 the doubled tempo is cut at 300 and the
    halving that follows ends on 150. *)
Theorem double_then_halve (a : App) (z : Z) (u : Q) :
  practiceMode a = true ->
  bpm (metro a) = of_Z z -> (20 <= z)%Z ->
  currentPulse (practiceState a) = Fin u -> 1 <= u -> u < 16 ->
  bpm (metro (startHoldDec (startHoldInc a))) = of_Z (Z.min z 150)
  /\ currentBpm (practiceState (startHoldDec (startHoldInc a)))
     = of_Z (Z.min z 150)
  /\ currentPulse (practiceState (startHoldDec (startHoldInc a))) =n= Fin u.
Proof.
  intros Hmode Hb Hz Hu Hu1 Hu16.
  destruct (startHoldInc_practice a Hmode) as (Hm1 & Hb1 & _ & Hp1).
  { rewrite Hu. cbn [lt]. now apply Qltb_true. }
  rewrite Hb, floor_double in Hb1. change (Fin 300) with (of_Z 300) in Hb1.
  rewrite min_of_Z in Hb1. rewrite Hu in Hp1. cbn [mul] in Hp1.
  destruct (startHoldDec_practice (startHoldInc a) Hm1) as (_ & Hb2 & Hc2 & Hp2).
  { unfold gt. rewrite Hp1. cbn [lt]. apply Qltb_true. lra. }
  rewrite Hb1, floor_half in Hb2. change (Fin 20) with (of_Z 20) in Hb2.
  rewrite max_of_Z in Hb2.
  assert (E : Z.max 20 (Z.min 300 (2 * z) / 2) = Z.min z 150).
  { destruct (Z.le_gt_cases z 150).
    - rewrite (Z.min_r 300) by lia. rewrite Z.mul_comm, Z.div_mul by lia. lia.
    - rewrite (Z.min_l 300) by lia. change (300 / 2)%Z with 150%Z. lia. }
  rewrite E in Hb2. rewrite Hc2, Hb2, Hp2, Hp1.
  repeat split. rewrite div_Fin by discriminate. cbn [same]. field.
Qed.

Lemma double_then_halve_witness :
  bpm (metro (startHoldDec (startHoldInc (startPracticeMode (Fin 0) initialApp))))
  = of_Z (Z.min 60 150)
  /\ currentBpm (practiceState
       (startHoldDec (startHoldInc (startPracticeMode (Fin 0) initialApp))))
     = of_Z (Z.min 60 150)
  /\ currentPulse (practiceState
       (startHoldDec (startHoldInc (startPracticeMode (Fin 0) initialApp))))
     =n= Fin 4.
Proof.
  apply (double_then_halve (startPracticeMode (Fin 0) initialApp) 60 4);
    first [reflexivity | discriminate | lia].
Defined.

(** In practice mode, halving the pulse and then doubling it rounds a whole
    tempo between 40 and 301 down to an even number: an even tempo comes
    back, an odd one comes back one lower.  The pulse comes back. *)
Theorem halve_then_double (a : App) (z : Z) (u : Q) :
  practiceMode a = true ->
  bpm (metro a) = of_Z z -> (40 <= z <= 301)%Z ->
  currentPulse (practiceState a) = Fin u -> 1 < u -> u <= 16 ->
  bpm (metro (startHoldInc (startHoldDec a))) = of_Z (2 * (z / 2))
  /\ currentBpm (practiceState (startHoldInc (startHoldDec a)))
     = of_Z (2 * (z / 2))
  /\ currentPulse (practiceState (startHoldInc (startHoldDec a))) =n= Fin u.
Proof.
  intros Hmode Hb Hz Hu Hu1 Hu16.
  destruct (startHoldDec_practice a Hmode) as (Hm1 & Hb1 & _ & Hp1).
  { unfold gt. rewrite Hu. cbn [lt]. now apply Qltb_true. }
  rewrite Hb, floor_half in Hb1. change (Fin 20) with (of_Z 20) in Hb1.
  rewrite max_of_Z in Hb1. rewrite Hu in Hp1. rewrite div_Fin in Hp1 by discriminate.
  assert (Hhalf : (20 <= z / 2 <= 150)%Z).
  { split; [apply Z.div_le_lower_bound; lia|].
    apply Z.lt_succ_r. apply Z.div_lt_upper_bound; lia. }
  rewrite Z.max_r in Hb1 by lia.
  destruct (startHoldInc_practice (startHoldDec a) Hm1) as (_ & Hb2 & Hc2 & Hp2).
  { rewrite Hp1. cbn [lt]. apply Qltb_true.
    apply Qlt_shift_div_r; lra. }
  rewrite Hb1, floor_double in Hb2. change (Fin 300) with (of_Z 300) in Hb2.
  rewrite min_of_Z, Z.min_r in Hb2 by lia.
  rewrite Hc2, Hb2, Hp2, Hp1. repeat split. cbn [mul same]. field.
Qed.

Lemma halve_then_double_witness :
  bpm (metro (startHoldInc (startHoldDec (startPracticeMode (Fin 0) initialApp))))
  = of_Z (2 * (60 / 2))
  /\ currentBpm (practiceState
       (startHoldInc (startHoldDec (startPracticeMode (Fin 0) initialApp))))
     = of_Z (2 * (60 / 2))
  /\ currentPulse (practiceState
       (startHoldInc (startHoldDec (startPracticeMode (Fin 0) initialApp))))
     =n= Fin 4.
Proof.
  apply (halve_then_double (startPracticeMode (Fin 0) initialApp) 60 4);
    first [reflexivity | discriminate | lia].
Defined.

(* ------------------------------------------------------------------ *)
(** ** The stopwatch display *)

Lemma updateStopwatch_checked :
  forallb (fun n => String.eqb (updateStopwatch (Z.of_nat n))
                               (clockText (Z.of_nat n)))
          (seq 0 (60 * 100)) = true.
Proof. vm_compute. reflexivity. Qed.

(** For the first hundred minutes the stopwatch reads as a clock: two
    digits of minutes, a colon, two digits of seconds, zero padded; so the
    text has five characters and different times give different texts. *)
Theorem stopwatch_reads_as_clock (s s' : Z) :
  (0 <= s < 6000)%Z -> (0 <= s' < 6000)%Z ->
  updateStopwatch s = clockText s
  /\ String.length (updateStopwatch s) = 5%nat
  /\ (updateStopwatch s = updateStopwatch s' -> s = s').
Proof.
  assert (H : forall z : Z,
             (0 <= z < 6000)%Z -> updateStopwatch z = clockText z).
  { intros z Hz. pose proof updateStopwatch_checked as Hall.
    rewrite forallb_forall in Hall.
    specialize (Hall (Z.to_nat z)). rewrite Z2Nat.id in Hall by lia.
    apply String.eqb_eq, Hall, in_seq. lia. }
  intros Hs Hs'. rewrite (H s Hs), (H s' Hs').
  split; [reflexivity|]. split; [reflexivity|].
  unfold clockText. intros E.
  injection E as E1 E2 E3 E4.
  assert (Hdigit : forall a b : Z,
             (0 <= a < 10)%Z -> (0 <= b < 10)%Z ->
             digitChar a = digitChar b -> a = b).
  { intros a b Ha Hb Hab. unfold digitChar in Hab.
    apply (f_equal Ascii.nat_of_ascii) in Hab.
    rewrite !Ascii.nat_ascii_embedding in Hab by lia. lia. }
  apply Hdigit in E1, E2, E3, E4; Z.div_mod_to_equations; lia.
Qed.

Lemma stopwatch_reads_as_clock_witness :
  updateStopwatch 754 = clockText 754
  /\ String.length (updateStopwatch 754) = 5%nat
  /\ (updateStopwatch 754 = updateStopwatch 754 -> 754%Z = 754%Z).
Proof.
  apply (stopwatch_reads_as_clock 754 754); lia.
Defined.
